(** * Starpointer: the drag-to-scroll gesture controller [useDragScroll]

    A shallow embedding of the effect body of [useDragScroll] (src/App.tsx,
    shipped in this tree inside src/Starpointer/src/data/stars.ts, lines
    75-203) and of the part of the browser it talks to, followed by the
    properties of the gesture state machine.

    How the source is read:
    - the [let] variables of the effect closure are the record [Closure];
    - the scrollable element, [document.body.style.userSelect], the timer
      queue and the flags of the event being dispatched are the record
      [World]; every call the code makes on the host is also appended to
      [calls], so that "attempted", "written" and "before" can be stated;
    - handlers are written in a small state-and-exception monad [M]: a JS
      [throw] is the completion [Thrown], [try { } catch { }] is [tryCatch];
    - the pointer-capture methods are a [Platform] parameter: each may be
      missing, and [setPointerCapture] / [releasePointerCapture] may throw;
    - numbers ([clientY], [scrollTop], [pointerId], [button]) are integers. *)

From Stdlib Require Import ZArith List String Ascii Bool Lia.
From Stdlib Require Import DecimalString DecimalZ.
Import ListNotations.

Local Open Scope string_scope.
Local Open Scope list_scope.
Local Open Scope Z_scope.

(* ================================================================= *)
(** ** Values exchanged with the host *)

Inductive JsError : Type :=
| TypeError
| DOMException (name : string).

Inductive completion (A : Type) : Type :=
| Normal (a : A)
| Thrown (e : JsError).
Arguments Normal {A} a.
Arguments Thrown {A} e.

(** [event.target]: the only thing the code asks of it is
    [target.closest(selector)], which yields an element or null. *)
Record EventTarget : Type := { closest : string -> option nat }.

Record PointerEvent : Type := {
  pointerType : string;
  button : Z;
  pointerId : Z;
  clientY : Z;
  target : option EventTarget
}.

(** [DragScrollOptions] *)
Record DragScrollOptions : Type := {
  ignoreClosestSelector : option string;
  activeClassName : option string
}.

(** The functions the effect hands to [addEventListener]. Every run of
    [finishInteraction] that installs a click veto creates a new closure
    [preventClick]; [k] is its identity. *)
Inductive Listener : Type :=
| OnPointerDown
| OnPointerMove
| FinishInteraction
| CancelInteraction
| PreventClick (k : nat).

Record Registration : Type := {
  evType : string;
  callback : Listener;
  useCapture : bool
}.

(** The callback given to [setTimeout(..., 0)] at lines 167-169. *)
Inductive Task : Type :=
| RemovePreventClick (k : nat).

(** Calls made on the host, in program order. *)
Inductive HostCall : Type :=
| SetUserSelect (v : string)
| ClassListAdd (c : string)
| ClassListRemove (c : string)
| SetPointerCapture (id : Z)
| ReleasePointerCapture (id : Z)
| SetScrollTop (y : Z)
| PreventDefault
| StopPropagation
| AddEventListener (r : Registration)
| RemoveEventListener (r : Registration)
| SetTimeout (t : Task).

(** Pointer capture as the host offers it. [None] is a method the element
    does not have; a present method receives the pointer id and the ids
    currently captured by the element. *)
Record Platform : Type := {
  setPointerCapture : option (Z -> list Z -> completion (list Z));
  hasPointerCapture : option (Z -> list Z -> bool);
  releasePointerCapture : option (Z -> list Z -> completion (list Z))
}.

(* ================================================================= *)
(** ** State *)

(** The [let] variables of the effect (lines 86-92). *)
Record Closure : Type := {
  isPointerDown : bool;
  isDragActive : bool;
  suppressClick : bool;
  pointerIdentifier : option Z;
  startY : Z;
  startScrollTop : Z;
  previousUserSelect : option string
}.

Record World : Type := {
  vars : Closure;
  (* the element *)
  scrollTop : Z;
  classList : list string;
  captured : list Z;
  listeners : list Registration;
  (* document.body.style.userSelect *)
  userSelect : string;
  (* the event loop *)
  timers : list Task;
  nextClosure : nat;
  (* the event being dispatched *)
  defaultPrevented : bool;
  propagationStopped : bool;
  (* observations *)
  calls : list HostCall;
  uncaught : list JsError
}.

Definition with_isPointerDown (b : bool) (c : Closure) : Closure :=
  {| isPointerDown := b; isDragActive := isDragActive c;
     suppressClick := suppressClick c;
     pointerIdentifier := pointerIdentifier c; startY := startY c;
     startScrollTop := startScrollTop c;
     previousUserSelect := previousUserSelect c |}.

Definition with_isDragActive (b : bool) (c : Closure) : Closure :=
  {| isPointerDown := isPointerDown c; isDragActive := b;
     suppressClick := suppressClick c;
     pointerIdentifier := pointerIdentifier c; startY := startY c;
     startScrollTop := startScrollTop c;
     previousUserSelect := previousUserSelect c |}.

Definition with_suppressClick (b : bool) (c : Closure) : Closure :=
  {| isPointerDown := isPointerDown c; isDragActive := isDragActive c;
     suppressClick := b;
     pointerIdentifier := pointerIdentifier c; startY := startY c;
     startScrollTop := startScrollTop c;
     previousUserSelect := previousUserSelect c |}.

Definition with_pointerIdentifier (p : option Z) (c : Closure) : Closure :=
  {| isPointerDown := isPointerDown c; isDragActive := isDragActive c;
     suppressClick := suppressClick c;
     pointerIdentifier := p; startY := startY c;
     startScrollTop := startScrollTop c;
     previousUserSelect := previousUserSelect c |}.

Definition with_startY (y : Z) (c : Closure) : Closure :=
  {| isPointerDown := isPointerDown c; isDragActive := isDragActive c;
     suppressClick := suppressClick c;
     pointerIdentifier := pointerIdentifier c; startY := y;
     startScrollTop := startScrollTop c;
     previousUserSelect := previousUserSelect c |}.

Definition with_startScrollTop (y : Z) (c : Closure) : Closure :=
  {| isPointerDown := isPointerDown c; isDragActive := isDragActive c;
     suppressClick := suppressClick c;
     pointerIdentifier := pointerIdentifier c; startY := startY c;
     startScrollTop := y;
     previousUserSelect := previousUserSelect c |}.

Definition with_previousUserSelect (p : option string) (c : Closure)
  : Closure :=
  {| isPointerDown := isPointerDown c; isDragActive := isDragActive c;
     suppressClick := suppressClick c;
     pointerIdentifier := pointerIdentifier c; startY := startY c;
     startScrollTop := startScrollTop c;
     previousUserSelect := p |}.

Definition with_vars (c : Closure) (w : World) : World :=
  {| vars := c; scrollTop := scrollTop w; classList := classList w;
     captured := captured w; listeners := listeners w;
     userSelect := userSelect w; timers := timers w;
     nextClosure := nextClosure w; defaultPrevented := defaultPrevented w;
     propagationStopped := propagationStopped w; calls := calls w;
     uncaught := uncaught w |}.

Definition with_scrollTop (y : Z) (w : World) : World :=
  {| vars := vars w; scrollTop := y; classList := classList w;
     captured := captured w; listeners := listeners w;
     userSelect := userSelect w; timers := timers w;
     nextClosure := nextClosure w; defaultPrevented := defaultPrevented w;
     propagationStopped := propagationStopped w; calls := calls w;
     uncaught := uncaught w |}.

Definition with_classList (l : list string) (w : World) : World :=
  {| vars := vars w; scrollTop := scrollTop w; classList := l;
     captured := captured w; listeners := listeners w;
     userSelect := userSelect w; timers := timers w;
     nextClosure := nextClosure w; defaultPrevented := defaultPrevented w;
     propagationStopped := propagationStopped w; calls := calls w;
     uncaught := uncaught w |}.

Definition with_captured (l : list Z) (w : World) : World :=
  {| vars := vars w; scrollTop := scrollTop w; classList := classList w;
     captured := l; listeners := listeners w;
     userSelect := userSelect w; timers := timers w;
     nextClosure := nextClosure w; defaultPrevented := defaultPrevented w;
     propagationStopped := propagationStopped w; calls := calls w;
     uncaught := uncaught w |}.

Definition with_listeners (l : list Registration) (w : World) : World :=
  {| vars := vars w; scrollTop := scrollTop w; classList := classList w;
     captured := captured w; listeners := l;
     userSelect := userSelect w; timers := timers w;
     nextClosure := nextClosure w; defaultPrevented := defaultPrevented w;
     propagationStopped := propagationStopped w; calls := calls w;
     uncaught := uncaught w |}.

Definition with_userSelect (v : string) (w : World) : World :=
  {| vars := vars w; scrollTop := scrollTop w; classList := classList w;
     captured := captured w; listeners := listeners w;
     userSelect := v; timers := timers w;
     nextClosure := nextClosure w; defaultPrevented := defaultPrevented w;
     propagationStopped := propagationStopped w; calls := calls w;
     uncaught := uncaught w |}.

Definition with_timers (l : list Task) (w : World) : World :=
  {| vars := vars w; scrollTop := scrollTop w; classList := classList w;
     captured := captured w; listeners := listeners w;
     userSelect := userSelect w; timers := l;
     nextClosure := nextClosure w; defaultPrevented := defaultPrevented w;
     propagationStopped := propagationStopped w; calls := calls w;
     uncaught := uncaught w |}.

Definition with_nextClosure (n : nat) (w : World) : World :=
  {| vars := vars w; scrollTop := scrollTop w; classList := classList w;
     captured := captured w; listeners := listeners w;
     userSelect := userSelect w; timers := timers w;
     nextClosure := n; defaultPrevented := defaultPrevented w;
     propagationStopped := propagationStopped w; calls := calls w;
     uncaught := uncaught w |}.

Definition with_defaultPrevented (b : bool) (w : World) : World :=
  {| vars := vars w; scrollTop := scrollTop w; classList := classList w;
     captured := captured w; listeners := listeners w;
     userSelect := userSelect w; timers := timers w;
     nextClosure := nextClosure w; defaultPrevented := b;
     propagationStopped := propagationStopped w; calls := calls w;
     uncaught := uncaught w |}.

Definition with_propagationStopped (b : bool) (w : World) : World :=
  {| vars := vars w; scrollTop := scrollTop w; classList := classList w;
     captured := captured w; listeners := listeners w;
     userSelect := userSelect w; timers := timers w;
     nextClosure := nextClosure w; defaultPrevented := defaultPrevented w;
     propagationStopped := b; calls := calls w;
     uncaught := uncaught w |}.

Definition with_calls (l : list HostCall) (w : World) : World :=
  {| vars := vars w; scrollTop := scrollTop w; classList := classList w;
     captured := captured w; listeners := listeners w;
     userSelect := userSelect w; timers := timers w;
     nextClosure := nextClosure w; defaultPrevented := defaultPrevented w;
     propagationStopped := propagationStopped w; calls := l;
     uncaught := uncaught w |}.

Definition with_uncaught (l : list JsError) (w : World) : World :=
  {| vars := vars w; scrollTop := scrollTop w; classList := classList w;
     captured := captured w; listeners := listeners w;
     userSelect := userSelect w; timers := timers w;
     nextClosure := nextClosure w; defaultPrevented := defaultPrevented w;
     propagationStopped := propagationStopped w; calls := calls w;
     uncaught := l |}.

(* ================================================================= *)
(** ** The monad of handler bodies *)

Definition M (A : Type) : Type := World -> completion A * World.

Definition ret {A : Type} (a : A) : M A := fun w => (Normal a, w).

Definition bind {A B : Type} (m : M A) (f : A -> M B) : M B :=
  fun w =>
    match m w with
    | (Normal a, w') => f a w'
    | (Thrown e, w') => (Thrown e, w')
    end.

Definition throw {A : Type} (e : JsError) : M A := fun w => (Thrown e, w).

(** [try { body } catch { }]: what [body] did before it threw stays. *)
Definition tryCatch (body : M unit) (handler : M unit) : M unit :=
  fun w =>
    match body w with
    | (Normal a, w') => (Normal a, w')
    | (Thrown _, w') => handler w'
    end.

Definition gets {A : Type} (f : World -> A) : M A := fun w => (Normal (f w), w).
Definition modify (f : World -> World) : M unit := fun w => (Normal tt, f w).

Declare Scope js_scope.
Delimit Scope js_scope with js.
Notation "x <- m ;; k" := (bind m (fun x => k))
  (at level 61, m at next level, right associativity) : js_scope.
Notation "m ;; k" := (bind m (fun _ => k))
  (at level 61, right associativity) : js_scope.
Local Open Scope js_scope.

Definition record (c : HostCall) : M unit :=
  modify (fun w => with_calls (calls w ++ [c]) w).

Definition setVar (f : Closure -> Closure) : M unit :=
  modify (fun w => with_vars (f (vars w)) w).

Definition when (b : bool) (m : M unit) : M unit :=
  if b then m else ret tt.

(* ================================================================= *)
(** ** Host operations *)

Definition listener_eqb (a b : Listener) : bool :=
  match a, b with
  | OnPointerDown, OnPointerDown => true
  | OnPointerMove, OnPointerMove => true
  | FinishInteraction, FinishInteraction => true
  | CancelInteraction, CancelInteraction => true
  | PreventClick j, PreventClick k => Nat.eqb j k
  | _, _ => false
  end.

Definition registration_eqb (a b : Registration) : bool :=
  String.eqb (evType a) (evType b)
  && listener_eqb (callback a) (callback b)
  && Bool.eqb (useCapture a) (useCapture b).

Definition hasToken (c : string) (l : list string) : bool :=
  existsb (String.eqb c) l.

(** [element.classList.add(c)]: a token list has no duplicates. *)
Definition classListAdd (c : string) : M unit :=
  record (ClassListAdd c) ;;
  modify (fun w =>
    if hasToken c (classList w) then w
    else with_classList (classList w ++ [c]) w).

(** [element.classList.remove(c)] *)
Definition classListRemove (c : string) : M unit :=
  record (ClassListRemove c) ;;
  modify (fun w =>
    with_classList (filter (fun t => negb (String.eqb c t)) (classList w)) w).

(** [document.body.style.userSelect = v] *)
Definition setUserSelect (v : string) : M unit :=
  record (SetUserSelect v) ;;
  modify (with_userSelect v).

(** [element.scrollTop = y] *)
Definition setScrollTop (y : Z) : M unit :=
  record (SetScrollTop y) ;;
  modify (with_scrollTop y).

(** [event.preventDefault()] and [event.stopPropagation()] *)
Definition preventDefault : M unit :=
  record PreventDefault ;;
  modify (with_defaultPrevented true).

Definition stopPropagation : M unit :=
  record StopPropagation ;;
  modify (with_propagationStopped true).

(** [element.addEventListener(type, cb, capture)]: a registration that is
    already there is not added again. *)
Definition addEventListener (r : Registration) : M unit :=
  record (AddEventListener r) ;;
  modify (fun w =>
    if existsb (registration_eqb r) (listeners w) then w
    else with_listeners (listeners w ++ [r]) w).

(** [element.removeEventListener(type, cb, capture)] *)
Definition removeEventListener (r : Registration) : M unit :=
  record (RemoveEventListener r) ;;
  modify (fun w =>
    with_listeners
      (filter (fun x => negb (registration_eqb r x)) (listeners w)) w).

(** [setTimeout(task, 0)] *)
Definition setTimeout (t : Task) : M unit :=
  record (SetTimeout t) ;;
  modify (fun w => with_timers (timers w ++ [t]) w).

(** Evaluating the function expression [(clickEvent) => {...}] allocates
    a closure with a fresh identity. *)
Definition newClosure : M nat :=
  k <- gets nextClosure ;;
  modify (with_nextClosure (S k)) ;;
  ret k.

Section Host.

Variable host : Platform.

(** [element.setPointerCapture(id)]: calling a missing method is a
    TypeError. *)
Definition elementSetPointerCapture (id : Z) : M unit :=
  record (SetPointerCapture id) ;;
  match setPointerCapture host with
  | None => throw TypeError
  | Some f =>
      cs <- gets captured ;;
      match f id cs with
      | Normal cs' => modify (with_captured cs')
      | Thrown e => throw e
      end
  end.

(** [element.hasPointerCapture?.(id)]: the optional call yields
    [undefined], which is falsy, when the method is missing. *)
Definition elementHasPointerCapture (id : Z) : M bool :=
  match hasPointerCapture host with
  | None => ret false
  | Some f => cs <- gets captured ;; ret (f id cs)
  end.

(** [element.releasePointerCapture(id)] *)
Definition elementReleasePointerCapture (id : Z) : M unit :=
  record (ReleasePointerCapture id) ;;
  match releasePointerCapture host with
  | None => throw TypeError
  | Some f =>
      cs <- gets captured ;;
      match f id cs with
      | Normal cs' => modify (with_captured cs')
      | Thrown e => throw e
      end
  end.

(* =============================================================== *)
(** ** The effect of [useDragScroll] *)

Variable options : DragScrollOptions.

(** Lines 79-80. *)
Definition ignoreSelector : option string := ignoreClosestSelector options.

Definition activeClass : string :=
  match activeClassName options with
  | Some c => c
  | None => "drag-scroll-active"
  end.

(** [pointerIdentifier !== event.pointerId] *)
Definition notSamePointer (p : option Z) (id : Z) : bool :=
  match p with
  | Some q => negb (Z.eqb q id)
  | None => true
  end.

(** Lines 94-105. *)
Definition beginDrag (id : Z) : M unit :=
  c <- gets vars ;;
  if isDragActive c then ret tt
  else
    setVar (with_isDragActive true) ;;
    v <- gets userSelect ;;
    setVar (with_previousUserSelect (Some v)) ;;
    setUserSelect "none" ;;
    classListAdd activeClass ;;
    tryCatch (elementSetPointerCapture id) (ret tt).

(** Lines 107-122. *)
Definition endDrag : M unit :=
  c <- gets vars ;;
  if negb (isDragActive c) then ret tt
  else
    match pointerIdentifier c with
    | Some id =>
        has <- elementHasPointerCapture id ;;
        when has (tryCatch (elementReleasePointerCapture id) (ret tt))
    | None => ret tt
    end ;;
    classListRemove activeClass ;;
    match previousUserSelect c with
    | Some v =>
        setUserSelect v ;;
        setVar (with_previousUserSelect None)
    | None => ret tt
    end ;;
    setVar (with_isDragActive false).

(** Lines 128-133: [ignoreSelector] is tested for truthiness, so the
    empty string configures no zone. *)
Definition inIgnoreZone (event : PointerEvent) : bool :=
  match ignoreSelector with
  | Some sel =>
      if String.eqb sel "" then false
      else
        match target event with
        | Some t =>
            match closest t sel with
            | Some _ => true
            | None => false
            end
        | None => false
        end
  | None => false
  end.

(** Lines 124-140. *)
Definition onPointerDown (event : PointerEvent) : M unit :=
  if String.eqb (pointerType event) "touch" then ret tt
  else if String.eqb (pointerType event) "mouse"
          && negb (Z.eqb (button event) 0) then ret tt
  else if inIgnoreZone event then ret tt
  else
    setVar (with_isPointerDown true) ;;
    setVar (with_pointerIdentifier (Some (pointerId event))) ;;
    setVar (with_startY (clientY event)) ;;
    y <- gets scrollTop ;;
    setVar (with_startScrollTop y) ;;
    setVar (with_suppressClick false).

(** Lines 142-154. *)
Definition onPointerMove (event : PointerEvent) : M unit :=
  c <- gets vars ;;
  if negb (isPointerDown c)
     || notSamePointer (pointerIdentifier c) (pointerId event)
  then ret tt
  else
    let deltaY := clientY event - startY c in
    when (negb (isDragActive c) && (Z.abs deltaY >? 2))
         (beginDrag (pointerId event)) ;;
    c' <- gets vars ;;
    when (isDragActive c')
         (setVar (with_suppressClick true) ;;
          setScrollTop (startScrollTop c' - deltaY) ;;
          preventDefault).

Definition clickVeto (k : nat) : Registration :=
  {| evType := "click"; callback := PreventClick k; useCapture := true |}.

(** Lines 156-176. *)
Definition finishInteraction (event : PointerEvent) : M unit :=
  c <- gets vars ;;
  if negb (isPointerDown c)
     || notSamePointer (pointerIdentifier c) (pointerId event)
  then ret tt
  else
    when (isDragActive c)
         (endDrag ;;
          c' <- gets vars ;;
          when (suppressClick c')
               (k <- newClosure ;;
                addEventListener (clickVeto k) ;;
                setTimeout (RemovePreventClick k))) ;;
    setVar (with_isPointerDown false) ;;
    setVar (with_pointerIdentifier None) ;;
    setVar (with_suppressClick false).

(** Lines 178-186. *)
Definition cancelInteraction (event : PointerEvent) : M unit :=
  c <- gets vars ;;
  if negb (isPointerDown c)
     || notSamePointer (pointerIdentifier c) (pointerId event)
  then ret tt
  else
    when (isDragActive c) endDrag ;;
    setVar (with_isPointerDown false) ;;
    setVar (with_pointerIdentifier None) ;;
    setVar (with_suppressClick false).

(** Lines 162-165. *)
Definition preventClick : M unit :=
  preventDefault ;;
  stopPropagation.

Definition onType (type : string) (l : Listener) : Registration :=
  {| evType := type; callback := l; useCapture := false |}.

(** Lines 86-92. *)
Definition initialVars : Closure :=
  {| isPointerDown := false; isDragActive := false;
     suppressClick := false; pointerIdentifier := None;
     startY := 0; startScrollTop := 0; previousUserSelect := None |}.

(** The effect body for a non-null [ref.current]: lines 86-92 and
    188-192. *)
Definition mount : M unit :=
  setVar (fun _ => initialVars) ;;
  addEventListener (onType "pointerdown" OnPointerDown) ;;
  addEventListener (onType "pointermove" OnPointerMove) ;;
  addEventListener (onType "pointerup" FinishInteraction) ;;
  addEventListener (onType "pointerleave" CancelInteraction) ;;
  addEventListener (onType "pointercancel" CancelInteraction).

(** The cleanup the effect returns: lines 194-201. *)
Definition cleanup : M unit :=
  endDrag ;;
  removeEventListener (onType "pointerdown" OnPointerDown) ;;
  removeEventListener (onType "pointermove" OnPointerMove) ;;
  removeEventListener (onType "pointerup" FinishInteraction) ;;
  removeEventListener (onType "pointerleave" CancelInteraction) ;;
  removeEventListener (onType "pointercancel" CancelInteraction).

(* =============================================================== *)
(** ** The event loop around the controller *)

Inductive DomEvent : Type :=
| PointerEv (e : PointerEvent)
| MouseEv.

Definition invoke (l : Listener) (ev : DomEvent) : M unit :=
  match l, ev with
  | OnPointerDown, PointerEv e => onPointerDown e
  | OnPointerMove, PointerEv e => onPointerMove e
  | FinishInteraction, PointerEv e => finishInteraction e
  | CancelInteraction, PointerEv e => cancelInteraction e
  | PreventClick _, _ => preventClick
  | _, _ => ret tt
  end.

(** A listener that throws is reported to the host and the dispatch goes
    on with the next listener. *)
Definition runListener (ev : DomEvent) (w : World) (r : Registration)
  : World :=
  match invoke (callback r) ev w with
  | (Normal _, w') => w'
  | (Thrown e, w') => with_uncaught (uncaught w' ++ [e]) w'
  end.

(** Dispatch of one event of type [type] on the element: the listeners
    registered for that type when the dispatch starts run in the order
    of their registration. *)
Definition dispatchEvent (type : string) (ev : DomEvent) (w : World)
  : World :=
  let w0 := with_propagationStopped false (with_defaultPrevented false w) in
  fold_left (runListener ev)
    (filter (fun r => String.eqb (evType r) type) (listeners w0)) w0.

(** Lines 167-169. *)
Definition runTask (t : Task) : M unit :=
  match t with
  | RemovePreventClick k => removeEventListener (clickVeto k)
  end.

Definition settle (r : completion unit * World) : World :=
  match r with
  | (Normal _, w') => w'
  | (Thrown e, w') => with_uncaught (uncaught w' ++ [e]) w'
  end.

(** The pointer events the effect listens to (lines 188-192). *)
Inductive PointerKind : Type := Down | Move | Up | Leave | Cancel.

Definition typeName (k : PointerKind) : string :=
  match k with
  | Down => "pointerdown"
  | Move => "pointermove"
  | Up => "pointerup"
  | Leave => "pointerleave"
  | Cancel => "pointercancel"
  end.

(** What the environment can do to the element: deliver a pointer event
    or a click, run the oldest pending timer, or unmount the component. *)
Inductive Input : Type :=
| Pointer (k : PointerKind) (e : PointerEvent)
| Click
| TimerFires
| Unmount.

Definition step (w : World) (i : Input) : World :=
  match i with
  | Pointer k e => dispatchEvent (typeName k) (PointerEv e) w
  | Click => dispatchEvent "click" MouseEv w
  | TimerFires =>
      match timers w with
      | [] => w
      | t :: rest => settle (runTask t (with_timers rest w))
      end
  | Unmount => settle (cleanup w)
  end.

Definition run (w : World) (inputs : list Input) : World :=
  fold_left step inputs w.

(** The states [run] goes through, the first one included. *)
Fixpoint states (w : World) (inputs : list Input) : list World :=
  match inputs with
  | [] => [w]
  | i :: rest => w :: states (step w i) rest
  end.

End Host.

(** A page before the effect runs: the element with its scroll offset and
    class tokens, and the document's selection mode. *)
Definition page (y : Z) (classes : list string) (sel : string) : World :=
  {| vars := initialVars; scrollTop := y; classList := classes;
     captured := []; listeners := []; userSelect := sel; timers := [];
     nextClosure := O; defaultPrevented := false;
     propagationStopped := false; calls := []; uncaught := [] |}.

Definition mounted (y : Z) (classes : list string) (sel : string) : World :=
  settle (mount (page y classes sel)).

(* ================================================================= *)
(** ** The phase of the state machine *)

Inductive Phase : Type := Idle | Armed | Dragging.

Definition phase_of (c : Closure) : Phase :=
  if isDragActive c then Dragging
  else if isPointerDown c then Armed
  else Idle.

Definition phase (w : World) : Phase := phase_of (vars w).

(** [activePointerId] of the specification's data model. *)
Definition activePointerId (w : World) : option Z := pointerIdentifier (vars w).

(** The five registrations of lines 188-192, in order. *)
Definition pointerListeners : list Registration :=
  [ onType "pointerdown" OnPointerDown;
    onType "pointermove" OnPointerMove;
    onType "pointerup" FinishInteraction;
    onType "pointerleave" CancelInteraction;
    onType "pointercancel" CancelInteraction ].

(** The controller is attached while its pointer-down listener is
    registered on the element. *)
Definition attached (w : World) : bool :=
  existsb (registration_eqb (onType "pointerdown" OnPointerDown))
          (listeners w).

(** The state a new dispatch starts from. *)
Definition resetFlags (w : World) : World :=
  with_propagationStopped false (with_defaultPrevented false w).

(** A click that reached the element was cancelled by the veto. *)
Definition cancelled (w : World) : Prop :=
  defaultPrevented w = true /\ propagationStopped w = true.

(** A click that went through untouched. *)
Definition delivered (w : World) : Prop :=
  defaultPrevented w = false /\ propagationStopped w = false.

(** Filtering rules of lines 125-133. *)
Definition filteredOut (options : DragScrollOptions) (e : PointerEvent)
  : bool :=
  String.eqb (pointerType e) "touch"
  || (String.eqb (pointerType e) "mouse" && negb (Z.eqb (button e) 0))
  || inIgnoreZone options e.

(* ================================================================= *)
(** ** Invariant of every run from a mounted controller *)

Definition isSome {A : Type} (o : option A) : bool :=
  match o with Some _ => true | None => false end.

Record Inv (v : string) (w : World) : Prop := mkInv {
  inv_drag :
    isDragActive (vars w) = true ->
    isPointerDown (vars w) = true
    /\ previousUserSelect (vars w) = Some v
    /\ userSelect w = "none";
  inv_rest :
    isDragActive (vars w) = false ->
    previousUserSelect (vars w) = None /\ userSelect w = v;
  inv_owner :
    isPointerDown (vars w) = isSome (pointerIdentifier (vars w));
  inv_wiring :
    exists ks,
      (listeners w = pointerListeners ++ map clickVeto ks
       \/ (listeners w = map clickVeto ks
           /\ isDragActive (vars w) = false))
      /\ timers w = map RemovePreventClick ks
      /\ NoDup ks
      /\ Forall (fun k => (k < nextClosure w)%nat) ks;
  inv_uncaught : uncaught w = []
}.

(** Where a pointer event goes (lines 188-192). *)
Definition handlerOf (k : PointerKind) : Listener :=
  match k with
  | Down => OnPointerDown
  | Move => OnPointerMove
  | Up => FinishInteraction
  | Leave => CancelInteraction
  | Cancel => CancelInteraction
  end.

(** The part of the invariant that speaks of the closure variables and of
    the selection mode. *)
Definition SelInv (v : string) (w : World) : Prop :=
  (isDragActive (vars w) = true ->
   isPointerDown (vars w) = true
   /\ previousUserSelect (vars w) = Some v
   /\ userSelect w = "none")
  /\ (isDragActive (vars w) = false ->
      previousUserSelect (vars w) = None /\ userSelect w = v)
  /\ isPointerDown (vars w) = isSome (pointerIdentifier (vars w)).

(** The host calls of [n] click vetoes run on one click. *)
Definition vetoCalls (ks : list nat) : list HostCall :=
  flat_map (fun _ => [PreventDefault; StopPropagation]) ks.

Definition nonEmpty {A : Type} (l : list A) : bool :=
  match l with [] => false | _ :: _ => true end.

(** The listener table after the five [removeEventListener] calls of the
    cleanup. *)
Definition withoutPointerListeners (l : list Registration)
  : list Registration :=
  filter (fun x => negb (registration_eqb
                           (onType "pointercancel" CancelInteraction) x))
    (filter (fun x => negb (registration_eqb
                              (onType "pointerleave" CancelInteraction) x))
       (filter (fun x => negb (registration_eqb
                                 (onType "pointerup" FinishInteraction) x))
          (filter (fun x => negb (registration_eqb
                                    (onType "pointermove" OnPointerMove) x))
             (filter (fun x => negb (registration_eqb
                                       (onType "pointerdown" OnPointerDown)
                                       x)) l)))).

(** The world after a pointer-down that passed the filters (lines
    135-139). *)
Definition armedBy (e : PointerEvent) (w : World) : World :=
  with_vars
    {| isPointerDown := true;
       isDragActive := isDragActive (vars w);
       suppressClick := false;
       pointerIdentifier := Some (pointerId e);
       startY := clientY e;
       startScrollTop := scrollTop w;
       previousUserSelect := previousUserSelect (vars w) |} w.

(** The vertical displacement [deltaY] of line 145 for a move [m] of a
    gesture that started at [d]. *)
Definition deltaY (d m : PointerEvent) : Z := clientY m - clientY d.

(* ================================================================= *)
(** ** Concrete hosts, options and events *)

(** A browser with pointer capture: the element remembers the captured
    ids. *)
Definition standardPlatform : Platform :=
  {| setPointerCapture := Some (fun id cs => Normal (id :: cs));
     hasPointerCapture := Some (fun id cs => existsb (Z.eqb id) cs);
     releasePointerCapture :=
       Some (fun id cs => Normal (filter (fun x => negb (Z.eqb id x)) cs)) |}.

(** A host without the pointer-capture methods. *)
Definition legacyPlatform : Platform :=
  {| setPointerCapture := None;
     hasPointerCapture := None;
     releasePointerCapture := None |}.

(** A host whose capture requests and releases fail. *)
Definition refusingPlatform : Platform :=
  {| setPointerCapture := Some (fun _ _ => Thrown (DOMException "NotFoundError"));
     hasPointerCapture := Some (fun _ _ => true);
     releasePointerCapture :=
       Some (fun _ _ => Thrown (DOMException "NotFoundError")) |}.

(** The two call sites of [useDragScroll] (lines 228-229). *)
Definition listOptions : DragScrollOptions :=
  {| ignoreClosestSelector := Some ".search-bar"; activeClassName := None |}.

Definition detailsOptions : DragScrollOptions :=
  {| ignoreClosestSelector := None; activeClassName := None |}.

Definition mouseEvent (id y : Z) : PointerEvent :=
  {| pointerType := "mouse"; button := 0; pointerId := id; clientY := y;
     target := None |}.

Definition penEvent (btn id y : Z) : PointerEvent :=
  {| pointerType := "pen"; button := btn; pointerId := id; clientY := y;
     target := None |}.

(** An event whose target sits inside the search bar. *)
Definition insideSearchBar (id y : Z) : PointerEvent :=
  {| pointerType := "mouse"; button := 0; pointerId := id; clientY := y;
     target :=
       Some {| closest := fun sel =>
                 if String.eqb sel ".search-bar" then Some 1%nat else None |} |}.

(** [element.hasPointerCapture?.(id)] as a truth value. *)
Definition reportsCapture (host : Platform) (id : Z) (cs : list Z) : bool :=
  match hasPointerCapture host with
  | Some f => f id cs
  | None => false
  end.

(** The captured ids after the guarded release of lines 109-115. *)
Definition afterRelease (host : Platform) (id : Z) (cs : list Z) : list Z :=
  if reportsCapture host id cs then
    match releasePointerCapture host with
    | Some f =>
        match f id cs with
        | Normal cs' => cs'
        | Thrown _ => cs
        end
    | None => cs
    end
  else cs.

(** The host calls of an end-drag whose drag is active, from the owning
    pointer, the captured ids and the saved selection mode. *)
Definition endDragCalls (host : Platform) (options : DragScrollOptions)
  (owner : option Z) (cs : list Z) (prev : option string) : list HostCall :=
  match owner with
  | Some id => if reportsCapture host id cs then [ReleasePointerCapture id]
               else []
  | None => []
  end
  ++ [ClassListRemove (activeClass options)]
  ++ match prev with
     | Some s => [SetUserSelect s]
     | None => []
     end.

(** *** Saving and restoring the selection mode along a run *)

Definition saved (w : World) : bool := isSome (previousUserSelect (vars w)).

(** The steps of a run at which the selection mode is captured into
    [previousUserSelect], and those at which it is restored from it. *)
Fixpoint captureSteps (ws : list World) : list (World * World) :=
  match ws with
  | a :: (b :: _) as rest =>
      if negb (saved a) && saved b then (a, b) :: captureSteps rest
      else captureSteps rest
  | _ => []
  end.

Fixpoint restoreSteps (ws : list World) : list (World * World) :=
  match ws with
  | a :: (b :: _) as rest =>
      if saved a && negb (saved b) then (a, b) :: restoreSteps rest
      else restoreSteps rest
  | _ => []
  end.

Definition b2n (b : bool) : nat := if b then 1%nat else 0%nat.

(** The machine is at rest when it is Idle or has been unmounted. *)
Definition atRest (w : World) : Prop :=
  phase w = Idle \/ attached w = false.

(* ================================================================= *)
(** ** The catalogue and the state logic of [App]

    The rest of the two source files: the construction of a [Star] from a
    catalogue entry (src/data/stars.ts, lines 38-58) and the pure parts of
    [App] (lines 205-312). JavaScript strings are read as sequences of
    code units below 256, which is what [string] holds; [trim] and
    [toLowerCase] are the built-ins restricted to such strings. Catalogue
    numbers are integers. *)

Module Catalog.

(** [WhiteSpace] and [LineTerminator] code units below 256: TAB, LF, VT,
    FF, CR, SP and NBSP. *)
Definition isWhiteSpace (c : ascii) : bool :=
  let n := nat_of_ascii c in
  ((9 <=? n) && (n <=? 13) || (n =? 32) || (n =? 160))%nat.

Fixpoint trimStart (s : string) : string :=
  match s with
  | EmptyString => EmptyString
  | String c r => if isWhiteSpace c then trimStart r else s
  end.

Fixpoint trimEnd (s : string) : string :=
  match s with
  | EmptyString => EmptyString
  | String c r =>
      match trimEnd r with
      | EmptyString => if isWhiteSpace c then EmptyString
                       else String c EmptyString
      | r' => String c r'
      end
  end.

(** [String.prototype.trim] *)
Definition trim (s : string) : string := trimEnd (trimStart s).

(** [String.prototype.toLowerCase] on code units below 256: A-Z and the
    Latin-1 capitals U+00C0-U+00DE other than the multiplication sign
    move up by 32. *)
Definition lowerChar (c : ascii) : ascii :=
  let n := nat_of_ascii c in
  if ((65 <=? n) && (n <=? 90)
      || (192 <=? n) && (n <=? 222) && negb (n =? 215))%nat
  then ascii_of_nat (n + 32)
  else c.

Fixpoint toLowerCase (s : string) : string :=
  match s with
  | EmptyString => EmptyString
  | String c r => String (lowerChar c) (toLowerCase r)
  end.

(** [String.prototype.includes] *)
Fixpoint includes (s t : string) : bool :=
  if String.prefix t s then true
  else
    match s with
    | EmptyString => false
    | String _ r => includes r t
    end.

(** All code units of [s] satisfy [p]. *)
Fixpoint forallChars (p : ascii -> bool) (s : string) : bool :=
  match s with
  | EmptyString => true
  | String c r => p c && forallChars p r
  end.


(** [String(n)] and [`${n}`] for an integer [n]. *)
Definition numberToString (n : Z) : string :=
  DecimalString.NilZero.string_of_int (Z.to_int n).

(** Truthiness of an optional string: [undefined] and [""] are falsy. *)
Definition truthy (o : option string) : bool :=
  match o with
  | Some s => negb (String.eqb s "")
  | None => false
  end.

Record StarImageMeta : Type := {
  src : string;
  title : string;
  attribution : string
}.

(** [StarRecord], an entry of stars.json. *)
Record StarRecord : Type := {
  r_name : string;
  r_catalogId : Z;
  r_image : option StarImageMeta;
  r_aliases : option (list string);
  r_magnitude : option string;
  r_distance : option string;
  r_spectralType : option string;
  r_coordinates : option string;
  r_summary : option string;
  r_moreInfoUrl : option string
}.

Record Star : Type := {
  id : string;
  name : string;
  catalogId : Z;
  description : string;
  image : option StarImageMeta;
  aliases : option (list string);
  magnitude : option string;
  distance : option string;
  spectralType : option string;
  coordinates : option string;
  summary : option string;
  moreInfoUrl : option string
}.

(** The mapping function of lines 43-58. *)
Definition toStar (r : StarRecord) : Star :=
  {| id := "star-" ++ numberToString (r_catalogId r);
     name := r_name r;
     catalogId := r_catalogId r;
     image := r_image r;
     aliases := r_aliases r;
     magnitude := r_magnitude r;
     distance := r_distance r;
     spectralType := r_spectralType r;
     coordinates := r_coordinates r;
     summary := r_summary r;
     moreInfoUrl := r_moreInfoUrl r;
     description :=
       match r_summary r with
       | Some s => s
       | None =>
           r_name r ++ " is catalog entry "
           ++ numberToString (r_catalogId r)
           ++ " in the CosmoStart pointing registry."
       end |}.

(** Lines 205-206. *)
Definition hasDisplayImage (meta : option StarImageMeta) : bool :=
  match meta with
  | Some m =>
      negb (String.eqb (src m) "")
      && (0 <? String.length (trim (src m)))%nat
  | None => false
  end.

(** Lines 213-217. *)
Definition FALLBACK_IMAGE : StarImageMeta :=
  {| src := "https://images.unsplash.com/photo-1444703686981-a3abbc4d4fe3?auto=format&fit=crop&w=1000&q=80";
     title := "Milky Way star field";
     attribution := "Photo by Greg Rakozy on Unsplash" |}.

(** Lines 232-239. *)
Definition filteredStars (query : string) (sortedStars : list Star)
  : list Star :=
  if String.eqb (trim query) "" then sortedStars
  else
    let term := toLowerCase (trim query) in
    filter (fun star =>
              includes (toLowerCase (name star)) term
              || includes (numberToString (catalogId star)) term)
           sortedStars.

(** The fallback of lines 253-256 and 262-265. *)
Definition fallback (filtered : list Star) : option Star :=
  match find (fun star => hasDisplayImage (image star)) filtered with
  | Some star => Some star
  | None =>
      match filtered with
      | star :: _ => Some star
      | [] => None
      end
  end.

(** The selection after the effect of lines 251-268 has run. *)
Definition reselect (filtered : list Star) (selected : option Star)
  : option Star :=
  match selected with
  | None => fallback filtered
  | Some sel =>
      if existsb (fun star => String.eqb (id star) (id sel)) filtered
      then selected
      else fallback filtered
  end.

(** The object [imageMeta] of lines 279-285 is either the selected star's
    own image object or the constant [FALLBACK_IMAGE]; line 303 compares
    by identity. *)
Inductive ImageRef : Type :=
| OwnImage (m : StarImageMeta)
| Fallback.

Definition deref (r : ImageRef) : StarImageMeta :=
  match r with
  | OwnImage m => m
  | Fallback => FALLBACK_IMAGE
  end.

Definition imageMeta (selected : option Star) : ImageRef :=
  match selected with
  | Some sel =>
      match image sel with
      | Some m => if hasDisplayImage (Some m) then OwnImage m else Fallback
      | None => Fallback
      end
  | None => Fallback
  end.

(** Line 286. *)
Definition resolvedImage (imageError : bool) (selected : option Star)
  : StarImageMeta :=
  if imageError then FALLBACK_IMAGE else deref (imageMeta selected).

(** The value of [imageError] after [handleImageError] (lines 302-306). *)
Definition handleImageError (imageError : bool) (selected : option Star)
  : bool :=
  match imageMeta selected with
  | OwnImage _ => true
  | Fallback => imageError
  end.

(** Line 296. *)
Definition starDescription (selected : option Star) : string :=
  match selected with
  | Some sel =>
      match summary sel with
      | Some s => s
      | None => description sel
      end
  | None => ""
  end.

(** Lines 287-295, as label and value pairs. *)
Definition starFacts (selected : option Star)
  : list (string * option string) :=
  match selected with
  | Some sel =>
      filter (fun fact => truthy (snd fact))
             [ ("Magnitude", magnitude sel);
               ("Distance", distance sel);
               ("Spectral Type", spectralType sel);
               ("RA / Dec", coordinates sel) ]
  | None => []
  end.

(** [a || b] on strings: the empty string is falsy. *)
Definition orElse (a b : string) : string :=
  if String.eqb a "" then b else a.

(** Lines 307-309. *)
Definition imageAlt (imageError : bool) (selected : option Star) : string :=
  match selected with
  | Some sel => name sel ++ " star imagery"
  | None => orElse (title (resolvedImage imageError selected))
                   "Star field imagery"
  end.

(** Line 310. *)
Definition captionTitle (imageError : bool) (selected : option Star)
  : string :=
  orElse (title (resolvedImage imageError selected))
         (orElse (match selected with
                  | Some sel => name sel
                  | None => ""
                  end)
                 (title FALLBACK_IMAGE)).

(** Lines 311-312. *)
Definition captionAttribution (imageError : bool) (selected : option Star)
  : string :=
  orElse (attribution (resolvedImage imageError selected))
         (match selected with
          | Some sel => "Visual reference for " ++ name sel
          | None => attribution FALLBACK_IMAGE
          end).

(** *** Concrete entries *)

Definition bareEntry (nm : string) (n : Z) (img : option StarImageMeta)
  : StarRecord :=
  {| r_name := nm; r_catalogId := n; r_image := img; r_aliases := None;
     r_magnitude := None; r_distance := None; r_spectralType := None;
     r_coordinates := None; r_summary := None; r_moreInfoUrl := None |}.

Definition photo (url : string) : StarImageMeta :=
  {| src := url; title := "photo"; attribution := "archive" |}.

Definition sampleStars : list Star :=
  [ toStar (bareEntry "Altair" 12 None);
    toStar (bareEntry "Deneb" 7 (Some (photo "   ")));
    toStar (bareEntry "Vega" 70 (Some (photo "https://example.org/vega.jpg"))) ].

End Catalog.

(* ================================================================= *)
(** ** Lists of click vetoes *)

Lemma filter_vetoes_other_type (type : string) (ks : list nat) :
  String.eqb "click" type = false ->
  filter (fun r => String.eqb (evType r) type) (map clickVeto ks) = [].
Proof.
  intros Hne. induction ks as [|k ks IH]; [reflexivity|].
  cbn [map filter]. change (evType (clickVeto k)) with "click".
  rewrite Hne. exact IH.
Qed.

Lemma filter_vetoes_click (ks : list nat) :
  filter (fun r => String.eqb (evType r) "click") (map clickVeto ks)
  = map clickVeto ks.
Proof.
  induction ks as [|k ks IH]; simpl; [reflexivity|]. now rewrite IH.
Qed.

Lemma remove_pointer_keeps_vetoes (type : string) (l : Listener)
    (ks : list nat) :
  filter (fun x => negb (registration_eqb (onType type l) x))
         (map clickVeto ks) = map clickVeto ks.
Proof.
  induction ks as [|k ks IH]; simpl; [reflexivity|].
  unfold registration_eqb at 1; simpl.
  rewrite Bool.andb_false_r. simpl. now rewrite IH.
Qed.

Lemma remove_absent_veto (k : nat) (ks : list nat) :
  ~ In k ks ->
  filter (fun x => negb (registration_eqb (clickVeto k) x))
         (map clickVeto ks) = map clickVeto ks.
Proof.
  induction ks as [|j ks IH]; simpl; intros Hn; [reflexivity|].
  unfold registration_eqb at 1; simpl.
  destruct (Nat.eqb_spec k j) as [->|Hkj].
  - exfalso. apply Hn. now left.
  - simpl. rewrite IH; [reflexivity|]. intros Hin. apply Hn. now right.
Qed.

Lemma veto_absent (k : nat) (ks : list nat) :
  ~ In k ks ->
  existsb (registration_eqb (clickVeto k)) (map clickVeto ks) = false.
Proof.
  induction ks as [|j ks IH]; simpl; intros Hn; [reflexivity|].
  unfold registration_eqb at 1; simpl.
  destruct (Nat.eqb_spec k j) as [->|Hkj].
  - exfalso. apply Hn. now left.
  - simpl. apply IH. intros Hin. apply Hn. now right.
Qed.

Lemma attached_vetoes (ks : list nat) :
  existsb (registration_eqb (onType "pointerdown" OnPointerDown))
          (map clickVeto ks) = false.
Proof.
  induction ks as [|j ks IH]; simpl; [reflexivity|]. exact IH.
Qed.

Lemma fresh_not_in (n : nat) (ks : list nat) :
  Forall (fun k => (k < n)%nat) ks -> ~ In n ks.
Proof.
  intros Hall Hin. rewrite Forall_forall in Hall.
  specialize (Hall n Hin). lia.
Qed.

(* ================================================================= *)
(** ** Unfolding handler bodies *)

Ltac break_match :=
  match goal with
  | |- context [match ?x with _ => _ end] =>
      lazymatch x with
      | context [match _ with _ => _ end] => fail
      | _ => destruct x eqn:?
      end
  | H : context [match ?x with _ => _ end] |- _ =>
      lazymatch x with
      | context [match _ with _ => _ end] => fail
      | _ => destruct x eqn:?
      end
  end.

Ltac unfold_js :=
  unfold cleanup, finishInteraction, cancelInteraction, onPointerMove,
    onPointerDown, preventClick, beginDrag, endDrag, runTask,
    elementSetPointerCapture, elementHasPointerCapture,
    elementReleasePointerCapture, newClosure, setTimeout,
    removeEventListener, addEventListener, stopPropagation, preventDefault,
    setScrollTop, setUserSelect, classListRemove, classListAdd,
    when, setVar, record, tryCatch, modify, gets, throw, bind, ret in *.

Ltac tidy :=
  repeat match goal with
  | H : ?a = ?a -> _ |- _ => specialize (H eq_refl)
  | H : false = true -> _ |- _ => clear H
  | H : true = false -> _ |- _ => clear H
  | H : _ /\ _ |- _ => destruct H
  | H : _ || _ = false |- _ => apply Bool.orb_false_iff in H
  | H : _ && _ = true |- _ => apply Bool.andb_true_iff in H
  | H : negb _ = false |- _ => apply Bool.negb_false_iff in H
  | H : negb _ = true |- _ => apply Bool.negb_true_iff in H
  | H : ?b = true, K : ?b = true -> _ |- _ => specialize (K H)
  | H : ?b = false, K : ?b = false -> _ |- _ => specialize (K H)
  end.

Ltac open_world w :=
  let c := fresh "c" in
  destruct w as [c ? ? ? ? ? ? ? ? ? ? ?]; destruct c; cbn in *.

Section Steps.

Variable host : Platform.
Variable options : DragScrollOptions.

Lemma dispatch_pointer_attached (k : PointerKind) (e : PointerEvent)
    (w : World) (ks : list nat) :
  listeners w = pointerListeners ++ map clickVeto ks ->
  dispatchEvent host options (typeName k) (PointerEv e) w
  = settle (invoke host options (handlerOf k) (PointerEv e) (resetFlags w)).
Proof.
  intros Hl. unfold dispatchEvent.
  change (listeners (with_propagationStopped false
                       (with_defaultPrevented false w)))
    with (listeners w).
  rewrite Hl, filter_app.
  rewrite filter_vetoes_other_type by (destruct k; reflexivity).
  destruct k; reflexivity.
Qed.

Lemma dispatch_pointer_detached (k : PointerKind) (e : PointerEvent)
    (w : World) (ks : list nat) :
  listeners w = map clickVeto ks ->
  dispatchEvent host options (typeName k) (PointerEv e) w = resetFlags w.
Proof.
  intros Hl. unfold dispatchEvent.
  change (listeners (with_propagationStopped false
                       (with_defaultPrevented false w)))
    with (listeners w).
  rewrite Hl.
  rewrite filter_vetoes_other_type by (destruct k; reflexivity).
  reflexivity.
Qed.

(** No handler lets an exception escape, whatever the platform does. *)
Lemma handlers_return (l : Listener) (ev : DomEvent) (w : World) :
  fst (invoke host options l ev w) = Normal tt.
Proof.
  destruct l, ev; cbn [invoke]; unfold_js;
    repeat (cbn; try break_match); try reflexivity; try discriminate.
Qed.

Lemma settle_invoke (l : Listener) (ev : DomEvent) (w : World) :
  settle (invoke host options l ev w) = snd (invoke host options l ev w).
Proof.
  pose proof (handlers_return l ev w) as H.
  destruct (invoke host options l ev w) as [[a|e] w']; cbn in *;
    [reflexivity|discriminate].
Qed.

(** What a handler leaves alone. *)
Lemma invoke_frame (l : Listener) (ev : DomEvent) (w : World) :
  let w' := snd (invoke host options l ev w) in
  uncaught w' = uncaught w
  /\ ((listeners w' = listeners w
       /\ timers w' = timers w
       /\ nextClosure w' = nextClosure w)
      \/ (l = FinishInteraction
          /\ isDragActive (vars w) = true
          /\ suppressClick (vars w) = true
          /\ listeners w'
             = (if existsb (registration_eqb (clickVeto (nextClosure w)))
                           (listeners w)
                then listeners w
                else listeners w ++ [clickVeto (nextClosure w)])
          /\ timers w' = timers w ++ [RemovePreventClick (nextClosure w)]
          /\ nextClosure w' = S (nextClosure w))).
Proof.
  destruct l, ev; cbn [invoke]; unfold_js;
    repeat (cbn; try break_match); cbn; auto 10.
Qed.

Lemma SelInv_invoke (v : string) (l : Listener) (ev : DomEvent)
    (w : World) :
  SelInv v w -> SelInv v (snd (invoke host options l ev w)).
Proof.
  unfold SelInv. intros (Hd & Hr & Ho).
  destruct l, ev; cbn [invoke]; unfold_js;
    repeat (cbn; try break_match); cbn;
    repeat split; intros;
    tidy; try discriminate; try tauto; try congruence.
Qed.

End Steps.

Section Environment.

Variable host : Platform.
Variable options : DragScrollOptions.

(** *** Clicks *)

Lemma click_fold (ks : list nat) (w : World) :
  let w' := fold_left (runListener host options MouseEv)
                      (map clickVeto ks) w in
  vars w' = vars w
  /\ scrollTop w' = scrollTop w
  /\ classList w' = classList w
  /\ captured w' = captured w
  /\ listeners w' = listeners w
  /\ userSelect w' = userSelect w
  /\ timers w' = timers w
  /\ nextClosure w' = nextClosure w
  /\ uncaught w' = uncaught w
  /\ defaultPrevented w' = (defaultPrevented w || nonEmpty ks)%bool
  /\ propagationStopped w' = (propagationStopped w || nonEmpty ks)%bool
  /\ calls w' = calls w ++ vetoCalls ks.
Proof.
  revert w. induction ks as [|k ks IH]; intros w; cbn [map fold_left].
  - cbn. rewrite !Bool.orb_false_r, app_nil_r. repeat split.
  - specialize (IH (runListener host options MouseEv w (clickVeto k))).
    cbn zeta in IH.
    destruct IH as (H1 & H2 & H3 & H4 & H5 & H6 & H7 & H8 & H9 & H10
                    & H11 & H12).
    cbn zeta.
    rewrite H1, H2, H3, H4, H5, H6, H7, H8, H9, H10, H11, H12.
    cbn. rewrite !Bool.orb_true_r, <- !app_assoc. repeat split.
Qed.

Lemma dispatch_click (w : World) (ks : list nat) :
  listeners w = pointerListeners ++ map clickVeto ks
  \/ listeners w = map clickVeto ks ->
  dispatchEvent host options "click" MouseEv w
  = fold_left (runListener host options MouseEv) (map clickVeto ks)
              (resetFlags w).
Proof.
  intros Hl. unfold dispatchEvent.
  change (listeners (with_propagationStopped false
                       (with_defaultPrevented false w)))
    with (listeners w).
  destruct Hl as [-> | ->].
  - rewrite filter_app, filter_vetoes_click. reflexivity.
  - rewrite filter_vetoes_click. reflexivity.
Qed.

(** *** Timers *)

Lemma timer_removes_veto (k : nat) (ks : list nat) (base : list Registration) :
  ~ In k ks ->
  base = pointerListeners \/ base = [] ->
  filter (fun x => negb (registration_eqb (clickVeto k) x))
         (base ++ map clickVeto (k :: ks))
  = base ++ map clickVeto ks.
Proof.
  intros Hn Hb. rewrite filter_app. cbn [map filter].
  replace (registration_eqb (clickVeto k) (clickVeto k)) with true.
  2:{ unfold registration_eqb; cbn. now rewrite Nat.eqb_refl. }
  cbn [negb]. rewrite remove_absent_veto by exact Hn.
  destruct Hb as [-> | ->]; reflexivity.
Qed.

(** *** Unmounting *)

Lemma withoutPointerListeners_vetoes (ks : list nat) :
  withoutPointerListeners (map clickVeto ks) = map clickVeto ks.
Proof.
  unfold withoutPointerListeners.
  now rewrite !remove_pointer_keeps_vetoes.
Qed.

Lemma withoutPointerListeners_attached (ks : list nat) :
  withoutPointerListeners (pointerListeners ++ map clickVeto ks)
  = map clickVeto ks.
Proof.
  unfold withoutPointerListeners.
  rewrite !filter_app. cbn [pointerListeners].
  rewrite !remove_pointer_keeps_vetoes. reflexivity.
Qed.

Lemma cleanup_frame (w : World) :
  let w' := snd (cleanup host options w) in
  fst (cleanup host options w) = Normal tt
  /\ uncaught w' = uncaught w
  /\ timers w' = timers w
  /\ nextClosure w' = nextClosure w
  /\ scrollTop w' = scrollTop w
  /\ listeners w' = withoutPointerListeners (listeners w)
  /\ isDragActive (vars w') = false.
Proof.
  unfold withoutPointerListeners. unfold_js.
  repeat (cbn; try break_match); cbn; tidy; auto 10.
Qed.

Lemma SelInv_cleanup (v : string) (w : World) :
  SelInv v w -> SelInv v (snd (cleanup host options w)).
Proof.
  unfold SelInv. intros (Hd & Hr & Ho). unfold_js.
  repeat (cbn; try break_match); cbn;
    repeat split; intros;
    tidy; try discriminate; try tauto; try congruence.
Qed.

End Environment.

Section Invariant.

Variable host : Platform.
Variable options : DragScrollOptions.

Lemma Inv_SelInv (v : string) (w : World) : Inv v w -> SelInv v w.
Proof. intros [Hd Hr Ho _ _]. repeat split; tauto. Qed.

Lemma Inv_mounted (y : Z) (classes : list string) (v : string) :
  Inv v (mounted y classes v).
Proof.
  constructor; cbn; try discriminate; auto.
  exists []. cbn. repeat split; auto using NoDup_nil.
Qed.

Lemma Inv_step (v : string) (w : World) (i : Input) :
  Inv v w -> Inv v (step host options w i).
Proof.
  intros HI. pose proof (Inv_SelInv v w HI) as HS.
  destruct HI as [_ _ _ (ks & Hw & Ht & Hnd & Hfr) Hu].
  destruct i as [k e| | |]; cbn [step].
  - (* a pointer event *)
    destruct Hw as [Hl | [Hl Hoff]].
    + rewrite (dispatch_pointer_attached host options k e w ks Hl).
      rewrite settle_invoke.
      pose proof (SelInv_invoke host options v (handlerOf k) (PointerEv e)
                    (resetFlags w) HS) as (Hd' & Hr' & Ho').
      pose proof (invoke_frame host options (handlerOf k) (PointerEv e)
                    (resetFlags w)) as Hf.
      cbn zeta in Hf.
      cbn [resetFlags with_propagationStopped with_defaultPrevented
           listeners timers nextClosure uncaught] in Hf.
      destruct Hf as (Hu' & Hf).
      constructor; auto.
      * destruct Hf as [(Hl' & Ht' & Hn') | (_ & _ & _ & Hl' & Ht' & Hn')].
        -- exists ks. rewrite Hl', Ht', Hn'. cbn. auto.
        -- exists (ks ++ [nextClosure w]).
           rewrite Hl', Ht', Hn'. cbn.
           rewrite Hl, existsb_app, veto_absent
             by (apply fresh_not_in; exact Hfr).
           change (existsb (registration_eqb (clickVeto (nextClosure w)))
                           pointerListeners) with false.
           cbn [orb]. rewrite !map_app, <- app_assoc, Ht. cbn [map].
           repeat split; auto.
           ++ apply NoDup_app; repeat split; auto.
              ** constructor; [intros []|constructor].
              ** intros x Hx [<-|[]].
                 revert Hx. apply fresh_not_in. exact Hfr.
           ++ apply Forall_app. split.
              ** eapply Forall_impl; [|exact Hfr]. cbn. intros; lia.
              ** constructor; [lia|constructor].
      * rewrite Hu'. exact Hu.
    + rewrite (dispatch_pointer_detached host options k e w ks Hl).
      destruct HS as (Hd' & Hr' & Ho').
      constructor; cbn; auto.
      exists ks. auto.
  - (* a click *)
    rewrite (dispatch_click host options w ks)
      by (destruct Hw as [Hl | [Hl _]]; auto).
    pose proof (click_fold host options ks (resetFlags w)) as Hc.
    cbn zeta in Hc.
    destruct Hc as (H1 & H2 & H3 & H4 & H5 & H6 & H7 & H8 & H9 & _).
    destruct HS as (Hd' & Hr' & Ho').
    constructor; rewrite ?H1, ?H5, ?H6, ?H7, ?H8, ?H9; cbn; auto.
    exists ks. auto.
  - (* the oldest timer *)
    destruct (timers w) as [|t rest] eqn:Htm.
    + destruct HS as (Hd' & Hr' & Ho').
      constructor; auto. exists ks. rewrite Htm. auto.
    + destruct ks as [|k ks]; [discriminate|].
      cbn in Ht. injection Ht as -> ->.
      apply NoDup_cons_iff in Hnd. destruct Hnd as [Hk Hnd].
      apply Forall_cons_iff in Hfr. destruct Hfr as [_ Hfr].
      destruct HS as (Hd' & Hr' & Ho').
      constructor; cbn; auto.
      exists ks. repeat split; auto.
      destruct Hw as [Hl | [Hl Hoff]]; rewrite Hl.
      * left. apply (timer_removes_veto k ks pointerListeners); auto.
      * right. split; [|exact Hoff].
        apply (timer_removes_veto k ks []); auto.
  - (* unmounting *)
    pose proof (cleanup_frame host options w) as Hc. cbn zeta in Hc.
    destruct Hc as (Hn & H1 & H2 & H3 & _ & H5 & H6).
    pose proof (SelInv_cleanup host options v w HS) as (Hd' & Hr' & Ho').
    assert (Hs : settle (cleanup host options w)
                 = snd (cleanup host options w)).
    { destruct (cleanup host options w) as [[a|e] w']; cbn in *;
        [reflexivity|discriminate]. }
    rewrite Hs.
    constructor; auto.
    + exists ks. rewrite H2, H3, H5. repeat split; auto.
      right. split; [|exact H6].
      destruct Hw as [Hl | [Hl _]]; rewrite Hl.
      * apply withoutPointerListeners_attached.
      * apply withoutPointerListeners_vetoes.
    + rewrite H1. exact Hu.
Qed.

Lemma Inv_run (v : string) (inputs : list Input) (w : World) :
  Inv v w -> Inv v (run host options w inputs).
Proof.
  revert w. induction inputs as [|i rest IH]; intros w HI; cbn.
  - exact HI.
  - apply IH. apply Inv_step. exact HI.
Qed.

End Invariant.

Lemma snoc_snoc {A : Type} (l : list A) (a b : A) :
  (l ++ [a]) ++ [b] = l ++ [a; b].
Proof. now rewrite <- app_assoc. Qed.

Section Handlers.

Variable host : Platform.
Variable options : DragScrollOptions.

Lemma onPointerDown_filtered (e : PointerEvent) (w : World) :
  filteredOut options e = true ->
  onPointerDown options e w = (Normal tt, w).
Proof.
  unfold filteredOut, onPointerDown. intros H.
  destruct (String.eqb (pointerType e) "touch"); [reflexivity|].
  destruct (String.eqb (pointerType e) "mouse" && negb (button e =? 0));
    [reflexivity|].
  cbn in H. rewrite H. reflexivity.
Qed.

Lemma onPointerDown_arms (e : PointerEvent) (w : World) :
  filteredOut options e = false ->
  onPointerDown options e w = (Normal tt, armedBy e w).
Proof.
  unfold filteredOut, onPointerDown. intros H.
  apply Bool.orb_false_iff in H. destruct H as [H H3].
  apply Bool.orb_false_iff in H. destruct H as [H1 H2].
  rewrite H1, H2, H3. reflexivity.
Qed.

Lemma onPointerMove_foreign (e : PointerEvent) (w : World) :
  isPointerDown (vars w) = false
  \/ pointerIdentifier (vars w) <> Some (pointerId e) ->
  onPointerMove host options e w = (Normal tt, w).
Proof.
  intros H. unfold onPointerMove, bind, gets.
  destruct (isPointerDown (vars w)); cbn.
  - destruct H as [H|H]; [discriminate|].
    destruct (pointerIdentifier (vars w)) as [q|]; cbn; [|reflexivity].
    destruct (Z.eqb_spec q (pointerId e)) as [->|Hne]; cbn;
      [congruence|reflexivity].
  - reflexivity.
Qed.

Lemma onPointerMove_below_threshold (e : PointerEvent) (w : World) :
  isDragActive (vars w) = false ->
  Z.abs (clientY e - startY (vars w)) <= 2 ->
  onPointerMove host options e w = (Normal tt, w).
Proof.
  intros Hd Hs. unfold onPointerMove, bind, gets.
  destruct (negb (isPointerDown (vars w))
            || notSamePointer (pointerIdentifier (vars w)) (pointerId e));
    [reflexivity|].
  rewrite Hd. cbn [negb andb].
  replace (Z.abs (clientY e - startY (vars w)) >? 2) with false
    by (symmetry; rewrite Z.gtb_ltb; apply Z.ltb_ge; exact Hs).
  cbn. rewrite Hd. reflexivity.
Qed.

(** A move of the owning pointer that is past the threshold, or that
    arrives while the drag is already active. *)
Lemma onPointerMove_drags (e : PointerEvent) (w : World) :
  isPointerDown (vars w) = true ->
  pointerIdentifier (vars w) = Some (pointerId e) ->
  isDragActive (vars w) = true
  \/ Z.abs (clientY e - startY (vars w)) > 2 ->
  let w' := snd (onPointerMove host options e w) in
  let y' := startScrollTop (vars w) - (clientY e - startY (vars w)) in
  isDragActive (vars w') = true
  /\ isPointerDown (vars w') = true
  /\ pointerIdentifier (vars w') = Some (pointerId e)
  /\ suppressClick (vars w') = true
  /\ startY (vars w') = startY (vars w)
  /\ startScrollTop (vars w') = startScrollTop (vars w)
  /\ scrollTop w' = y'
  /\ defaultPrevented w' = true
  /\ listeners w' = listeners w
  /\ exists before, calls w' = before ++ [SetScrollTop y'; PreventDefault].
Proof.
  intros Hp Hi Hd. unfold_js. rewrite Hp, Hi. cbn [negb orb notSamePointer].
  rewrite Z.eqb_refl. cbn [negb].
  destruct (isDragActive (vars w)) eqn:Hda.
  - cbn. rewrite Hda. cbn.
    repeat split; auto.
    eexists. apply snoc_snoc.
  - destruct Hd as [Hd|Hd]; [discriminate|].
    replace (Z.abs (clientY e - startY (vars w)) >? 2) with true
      by (symmetry; rewrite Z.gtb_ltb; apply Z.ltb_lt; lia).
    cbn. rewrite Hda.
    repeat (cbn; try break_match); cbn; repeat split; auto;
      eexists; apply snoc_snoc.
Qed.

(** A reachable world whose pointer-down listener is registered has all
    five pointer listeners, followed by the pending click vetoes. *)
Lemma attached_shape (v : string) (w : World) :
  Inv v w -> attached w = true ->
  exists ks, listeners w = pointerListeners ++ map clickVeto ks
             /\ timers w = map RemovePreventClick ks.
Proof.
  intros [_ _ _ (ks & Hw & Ht & _) _] Ha.
  destruct Hw as [Hl | [Hl _]].
  - exists ks. auto.
  - unfold attached in Ha. rewrite Hl, attached_vetoes in Ha. discriminate.
Qed.

Lemma detached_shape (v : string) (w : World) :
  Inv v w -> attached w = false ->
  exists ks, listeners w = map clickVeto ks
             /\ timers w = map RemovePreventClick ks.
Proof.
  intros [_ _ _ (ks & Hw & Ht & _) _] Ha.
  destruct Hw as [Hl | [Hl _]].
  - unfold attached in Ha. rewrite Hl in Ha. discriminate.
  - exists ks. auto.
Qed.

Lemma step_pointer_attached (v : string) (w : World) (k : PointerKind)
    (e : PointerEvent) :
  Inv v w -> attached w = true ->
  step host options w (Pointer k e)
  = snd (invoke host options (handlerOf k) (PointerEv e) (resetFlags w)).
Proof.
  intros HI Ha. destruct (attached_shape v w HI Ha) as (ks & Hl & _).
  cbn [step]. rewrite (dispatch_pointer_attached host options k e w ks Hl).
  apply settle_invoke.
Qed.

Lemma step_pointer_detached (v : string) (w : World) (k : PointerKind)
    (e : PointerEvent) :
  Inv v w -> attached w = false ->
  step host options w (Pointer k e) = resetFlags w.
Proof.
  intros HI Ha. destruct (detached_shape v w HI Ha) as (ks & Hl & _).
  cbn [step]. apply (dispatch_pointer_detached host options k e w ks Hl).
Qed.

End Handlers.

Section ScrollWrites.

Variable host : Platform.
Variable options : DragScrollOptions.

Ltac new_calls :=
  first
    [ exists []; split; [symmetry; apply app_nil_r | intros ? []]
    | eexists; split;
      [ rewrite <- ?app_assoc; cbn [app]; reflexivity
      | cbn; intros;
        repeat match goal with
               | H : _ \/ _ |- _ => destruct H
               | H : False |- _ => destruct H
               end; try discriminate; auto ] ].

(** A handler writes [scrollTop] only on a path that leaves the drag
    active. *)
Lemma invoke_scroll_writes (l : Listener) (ev : DomEvent) (w : World) :
  exists new,
    calls (snd (invoke host options l ev w)) = calls w ++ new
    /\ forall y, In (SetScrollTop y) new ->
                 isDragActive (vars (snd (invoke host options l ev w)))
                 = true.
Proof.
  destruct l, ev; cbn [invoke]; unfold_js;
    repeat (cbn; try break_match); cbn; new_calls.
Qed.

Lemma cleanup_scroll_writes (w : World) :
  exists new,
    calls (snd (cleanup host options w)) = calls w ++ new
    /\ forall y, ~ In (SetScrollTop y) new.
Proof.
  unfold_js.
  repeat (cbn; try break_match); cbn;
    (eexists; split;
     [ rewrite <- ?app_assoc; cbn [app]; reflexivity
     | cbn; intros y Hy;
       repeat match goal with
              | H : _ \/ _ |- _ => destruct H
              | H : False |- _ => destruct H
              end; discriminate ]).
Qed.

Lemma vetoCalls_no_scroll (ks : list nat) (y : Z) :
  ~ In (SetScrollTop y) (vetoCalls ks).
Proof.
  induction ks as [|k ks IH]; cbn; [tauto|].
  intros [H|[H|H]]; try discriminate. exact (IH H).
Qed.

End ScrollWrites.

(* ================================================================= *)
(** ** Arming, the drag threshold and scroll writes *)

Section Gestures.

Variable host : Platform.
Variable options : DragScrollOptions.

Lemma step_down_arms (v : string) (w : World) (e : PointerEvent) :
  Inv v w -> attached w = true -> filteredOut options e = false ->
  step host options w (Pointer Down e) = armedBy e (resetFlags w).
Proof.
  intros HI Ha Hf.
  rewrite (step_pointer_attached host options v w Down e HI Ha).
  cbn [handlerOf invoke]. now rewrite onPointerDown_arms.
Qed.

Lemma step_down_filtered (v : string) (w : World) (e : PointerEvent) :
  Inv v w -> filteredOut options e = true ->
  step host options w (Pointer Down e) = resetFlags w.
Proof.
  intros HI Hf. destruct (attached w) eqn:Ha.
  - rewrite (step_pointer_attached host options v w Down e HI Ha).
    cbn [handlerOf invoke]. now rewrite onPointerDown_filtered.
  - apply (step_pointer_detached host options v w Down e HI Ha).
Qed.

(** Small moves of the owning pointer leave an armed controller as it
    is. *)
Lemma armed_small_moves (v : string) (d : PointerEvent) (y0 : Z)
    (cs : list HostCall) (moves : list PointerEvent) :
  Forall (fun m => pointerId m = pointerId d /\ Z.abs (deltaY d m) <= 2)
         moves ->
  forall s,
    Inv v s -> attached s = true ->
    isDragActive (vars s) = false -> isPointerDown (vars s) = true ->
    startY (vars s) = clientY d ->
    scrollTop s = y0 -> calls s = cs ->
    Forall (fun s' => phase s' = Armed /\ scrollTop s' = y0 /\ calls s' = cs)
           (states host options s (map (Pointer Move) moves)).
Proof.
  induction 1 as [|m moves [Hid Hsmall] _ IH];
    intros s HI Ha Hd Hp Hy Hs Hc; cbn [map states].
  - constructor; [|constructor].
    unfold phase, phase_of. rewrite Hd, Hp. auto.
  - constructor.
    + unfold phase, phase_of. rewrite Hd, Hp. auto.
    + assert (Hstep : step host options s (Pointer Move m) = resetFlags s).
      { rewrite (step_pointer_attached host options v s Move m HI Ha).
        cbn [handlerOf invoke].
        rewrite onPointerMove_below_threshold; [reflexivity|exact Hd|].
        cbn. rewrite Hy. exact Hsmall. }
      rewrite Hstep. apply IH; auto.
      rewrite <- Hstep. apply Inv_step. exact HI.
Qed.

(** Every input appends to the call log, and a [scrollTop] write among
    the appended calls means the drag is active afterwards. *)
Lemma step_scroll_writes (v : string) (w : World) (i : Input) :
  Inv v w ->
  exists new,
    calls (step host options w i) = calls w ++ new
    /\ forall y, In (SetScrollTop y) new ->
                 phase (step host options w i) = Dragging.
Proof.
  intros HI. destruct i as [k e| | |].
  - destruct (attached w) eqn:Ha.
    + rewrite (step_pointer_attached host options v w k e HI Ha).
      destruct (invoke_scroll_writes host options (handlerOf k)
                  (PointerEv e) (resetFlags w)) as (new & Hc & Hy).
      exists new. split; [exact Hc|].
      intros y Hin. unfold phase, phase_of. now rewrite (Hy y Hin).
    + rewrite (step_pointer_detached host options v w k e HI Ha).
      exists []. split; [symmetry; apply app_nil_r|intros ? []].
  - destruct HI as [_ _ _ (ks & Hw & _) _]. cbn [step].
    rewrite (dispatch_click host options w ks)
      by (destruct Hw as [Hl | [Hl _]]; auto).
    pose proof (click_fold host options ks (resetFlags w)) as Hc.
    cbn zeta in Hc. decompose [and] Hc.
    exists (vetoCalls ks). split; [assumption|].
    intros y Hin. now apply vetoCalls_no_scroll in Hin.
  - cbn [step]. destruct (timers w) as [|[k] rest].
    + exists []. split; [symmetry; apply app_nil_r|intros ? []].
    + eexists. split; [cbn; reflexivity|].
      intros y [Hin|[]]. discriminate.
  - cbn [step].
    pose proof (cleanup_frame host options w) as Hf. cbn zeta in Hf.
    destruct Hf as (Hn & _).
    destruct (cleanup_scroll_writes host options w) as (new & Hc & Hy).
    destruct (cleanup host options w) as [[a|e] w']; cbn in *;
      [|discriminate].
    exists new. split; [exact Hc|]. intros y Hin. now apply Hy in Hin.
Qed.

End Gestures.

(** C4. A pointer-down that passes the filters, followed by a move of the
    same pointer whose vertical displacement [deltaY] has absolute value
    above 2, puts the controller in phase Dragging; the scroll offset is
    the one recorded at pointer-down minus [deltaY], [suppressClick] is
    set and the default action of the move event is cancelled. *)
Theorem C4_move_past_threshold_drags
    (host : Platform) (options : DragScrollOptions)
    (y : Z) (classes : list string) (v : string) (before : list Input)
    (down move : PointerEvent) :
  let w := run host options (mounted y classes v) before in
  attached w = true ->
  filteredOut options down = false ->
  pointerId move = pointerId down ->
  Z.abs (deltaY down move) > 2 ->
  let w2 := run host options w [Pointer Down down; Pointer Move move] in
  phase w2 = Dragging
  /\ startScrollTop (vars w2) = scrollTop w
  /\ scrollTop w2 = startScrollTop (vars w2) - deltaY down move
  /\ suppressClick (vars w2) = true
  /\ defaultPrevented w2 = true.
Proof.
  intros w Ha Hf Hid Hbig w2.
  assert (HI : Inv v w) by (apply Inv_run, Inv_mounted).
  assert (H1 : step host options w (Pointer Down down)
               = armedBy down (resetFlags w))
    by (apply (step_down_arms host options v); assumption).
  assert (HI1 : Inv v (armedBy down (resetFlags w)))
    by (rewrite <- H1; apply Inv_step; exact HI).
  subst w2. cbn [run fold_left]. rewrite H1.
  rewrite (step_pointer_attached host options v _ Move move HI1 Ha).
  cbn [handlerOf invoke].
  pose proof (onPointerMove_drags host options move
                (resetFlags (armedBy down (resetFlags w)))) as Hm.
  cbn zeta in Hm.
  destruct Hm as (Hd & _ & _ & Hs & _ & Hst & Hy & Hp & _).
  - reflexivity.
  - cbn. now rewrite Hid.
  - right. exact Hbig.
  - unfold phase, phase_of. rewrite Hd, Hs, Hp, Hy, Hst.
    cbn. unfold deltaY. auto.
Qed.

Lemma C4_witness :
  let w := run standardPlatform listOptions (mounted 50 [] "auto") [] in
  let w2 := run standardPlatform listOptions w
              [Pointer Down (mouseEvent 1 100);
               Pointer Move (mouseEvent 1 90)] in
  deltaY (mouseEvent 1 100) (mouseEvent 1 90) = -10
  /\ phase w2 = Dragging
  /\ startScrollTop (vars w2) = 50
  /\ scrollTop w2 = startScrollTop (vars w2) - -10
  /\ suppressClick (vars w2) = true
  /\ defaultPrevented w2 = true.
Proof.
  split; [reflexivity|].
  apply (C4_move_past_threshold_drags standardPlatform listOptions 50 []
           "auto" [] (mouseEvent 1 100) (mouseEvent 1 90));
    [reflexivity | reflexivity | reflexivity | cbn; lia].
Defined.

(** C5. After a pointer-down that passes the filters, moves of the same
    pointer whose displacement stays within 2 pixels keep the phase Armed:
    in every state of such a run the scroll offset is the one before the
    gesture and no host call has been made. And for every input, a write
    of the scroll offset among the calls it makes means that the phase is
    Dragging. *)
Theorem C5_moves_within_threshold_stay_armed
    (host : Platform) (options : DragScrollOptions)
    (y : Z) (classes : list string) (v : string) (before : list Input) :
  let w := run host options (mounted y classes v) before in
  (forall (down : PointerEvent) (moves : list PointerEvent),
      attached w = true ->
      phase w = Idle ->
      filteredOut options down = false ->
      Forall (fun m => pointerId m = pointerId down
                       /\ Z.abs (deltaY down m) <= 2) moves ->
      Forall (fun s => phase s = Armed
                       /\ scrollTop s = scrollTop w
                       /\ calls s = calls w)
             (states host options (step host options w (Pointer Down down))
                     (map (Pointer Move) moves)))
  /\ (forall i : Input,
         exists new,
           calls (step host options w i) = calls w ++ new
           /\ forall y', In (SetScrollTop y') new ->
                         phase (step host options w i) = Dragging).
Proof.
  intros w.
  assert (HI : Inv v w) by (apply Inv_run, Inv_mounted).
  split.
  - intros down moves Ha Hidle Hf Hmoves.
    assert (Hd : isDragActive (vars w) = false).
    { unfold phase, phase_of in Hidle.
      destruct (isDragActive (vars w)); [discriminate|reflexivity]. }
    assert (H1 : step host options w (Pointer Down down)
                 = armedBy down (resetFlags w))
      by (apply (step_down_arms host options v); assumption).
    apply (armed_small_moves host options v down); auto.
    + apply Inv_step. exact HI.
    + rewrite H1. exact Ha.
    + rewrite H1. exact Hd.
    + rewrite H1. reflexivity.
    + rewrite H1. reflexivity.
    + rewrite H1. reflexivity.
    + rewrite H1. reflexivity.
  - intros i. apply (step_scroll_writes host options v). exact HI.
Qed.

Lemma C5_witness :
  let w := run standardPlatform listOptions (mounted 50 [] "auto") [] in
  Forall (fun s => phase s = Armed
                   /\ scrollTop s = scrollTop w
                   /\ calls s = calls w)
         (states standardPlatform listOptions
                 (step standardPlatform listOptions w
                       (Pointer Down (mouseEvent 1 100)))
                 (map (Pointer Move) [mouseEvent 1 101; mouseEvent 1 98])).
Proof.
  apply (proj1 (C5_moves_within_threshold_stay_armed
                  standardPlatform listOptions 50 [] "auto" []));
    [reflexivity | reflexivity | reflexivity
    | repeat constructor; cbn; lia].
Defined.

(** C6 as stated fails: a pen pointer-down with a non-primary button (the
    barrel button, 2) arms the controller, because the button test of line
    126 applies to mouse pointers only. *)
Lemma C6_pen_secondary_button_arms :
  let e := penEvent 2 7 120 in
  let w := mounted 0 [] "auto" in
  let w' := step standardPlatform detailsOptions w (Pointer Down e) in
  button e <> 0
  /\ phase w = Idle
  /\ phase w' = Armed
  /\ activePointerId w' = Some 7
  /\ startY (vars w') = 120.
Proof. cbn. repeat split; discriminate. Qed.

(** C6, amended. A pointer-down whose pointer type is touch, or whose
    pointer type is mouse with a button other than the primary one, or
    whose target lies inside the configured ignore zone, changes nothing:
    the closure variables, the element, the selection mode and the call
    log are as before, so an Idle controller stays Idle and records no
    gesture state. *)
Theorem C6_filtered_pointer_down_is_ignored
    (host : Platform) (options : DragScrollOptions)
    (y : Z) (classes : list string) (v : string) (before : list Input)
    (e : PointerEvent) :
  let w := run host options (mounted y classes v) before in
  pointerType e = "touch"
  \/ (pointerType e = "mouse" /\ button e <> 0)
  \/ inIgnoreZone options e = true ->
  let w' := step host options w (Pointer Down e) in
  w' = resetFlags w
  /\ vars w' = vars w
  /\ phase w' = phase w
  /\ activePointerId w' = activePointerId w
  /\ scrollTop w' = scrollTop w
  /\ calls w' = calls w.
Proof.
  intros w H w'.
  assert (HI : Inv v w) by (apply Inv_run, Inv_mounted).
  assert (Hf : filteredOut options e = true).
  { unfold filteredOut. destruct H as [H|[[H1 H2]|H]].
    - rewrite H. reflexivity.
    - rewrite H1. apply Z.eqb_neq in H2. rewrite H2.
      cbn. reflexivity.
    - rewrite H. now rewrite !Bool.orb_true_r. }
  subst w'. rewrite (step_down_filtered host options v w e HI Hf).
  repeat split.
Qed.

Lemma C6_witness :
  let w := run standardPlatform listOptions (mounted 50 [] "auto") [] in
  let e := insideSearchBar 1 100 in
  let w' := step standardPlatform listOptions w (Pointer Down e) in
  w' = resetFlags w
  /\ vars w' = vars w
  /\ phase w' = phase w
  /\ activePointerId w' = activePointerId w
  /\ scrollTop w' = scrollTop w
  /\ calls w' = calls w.
Proof.
  apply (C6_filtered_pointer_down_is_ignored standardPlatform listOptions
           50 [] "auto" [] (insideSearchBar 1 100)).
  right. right. reflexivity.
Defined.

(** C1 at a concrete input: while the mouse pointer 1 owns the gesture, a
    pen pointer-down is not ignored. It replaces the owner, the start
    coordinate and the start offset; the pointer-up of the first pointer
    is then ignored. When it arrives during a drag it also clears
    [suppressClick], so the drag ends without a click veto. *)
Theorem C1_second_pointer_down_replaces_owner :
  let w0 := mounted 50 [] "auto" in
  let go := run standardPlatform detailsOptions w0 in
  let armed := go [Pointer Down (mouseEvent 1 100)] in
  let taken := go [Pointer Down (mouseEvent 1 100);
                   Pointer Down (penEvent 0 2 300)] in
  let dragging := go [Pointer Down (mouseEvent 1 100);
                      Pointer Move (mouseEvent 1 90)] in
  let hijacked := go [Pointer Down (mouseEvent 1 100);
                      Pointer Move (mouseEvent 1 90);
                      Pointer Down (penEvent 0 2 300)] in
  (phase armed = Armed /\ activePointerId armed = Some 1
   /\ startY (vars armed) = 100)
  /\ (phase taken = Armed /\ activePointerId taken = Some 2
      /\ startY (vars taken) = 300)
  /\ phase (step standardPlatform detailsOptions taken
                 (Pointer Up (mouseEvent 1 100))) = Armed
  /\ (phase dragging = Dragging /\ activePointerId dragging = Some 1
      /\ suppressClick (vars dragging) = true
      /\ startScrollTop (vars dragging) = 50)
  /\ (phase hijacked = Dragging /\ activePointerId hijacked = Some 2
      /\ suppressClick (vars hijacked) = false
      /\ startY (vars hijacked) = 300
      /\ startScrollTop (vars hijacked) = 60).
Proof. vm_compute. repeat split. Qed.

(* ================================================================= *)
(** ** End-drag and unmounting *)

Lemma hasToken_removed (c : string) (l : list string) :
  hasToken c (filter (fun t => negb (String.eqb c t)) l) = false.
Proof.
  unfold hasToken. induction l as [|t l IH]; cbn; [reflexivity|].
  destruct (String.eqb c t) eqn:E; cbn; [exact IH|].
  now rewrite E, IH.
Qed.

Section EndDrag.

Variable host : Platform.
Variable options : DragScrollOptions.

Lemma endDrag_idle (w : World) :
  isDragActive (vars w) = false ->
  endDrag host options w = (Normal tt, w).
Proof. intros H. unfold endDrag, bind, gets. now rewrite H. Qed.

(** End-drag while the drag is active. *)
Lemma endDrag_active (w : World) :
  isDragActive (vars w) = true ->
  let w' := snd (endDrag host options w) in
  fst (endDrag host options w) = Normal tt
  /\ vars w' = with_isDragActive false
                 (with_previousUserSelect None (vars w))
  /\ userSelect w' = match previousUserSelect (vars w) with
                     | Some s => s
                     | None => userSelect w
                     end
  /\ classList w'
     = filter (fun t => negb (String.eqb (activeClass options) t))
              (classList w)
  /\ captured w' = match pointerIdentifier (vars w) with
                   | Some id => afterRelease host id (captured w)
                   | None => captured w
                   end
  /\ calls w'
     = calls w ++ endDragCalls host options (pointerIdentifier (vars w))
                               (captured w) (previousUserSelect (vars w))
  /\ scrollTop w' = scrollTop w
  /\ listeners w' = listeners w
  /\ timers w' = timers w
  /\ nextClosure w' = nextClosure w
  /\ uncaught w' = uncaught w.
Proof.
  intros Hd.
  unfold afterRelease, endDragCalls, reportsCapture.
  unfold_js. rewrite Hd.
  destruct (pointerIdentifier (vars w)) as [id|] eqn:Hp;
    destruct (previousUserSelect (vars w)) as [s|] eqn:Hs;
    repeat (cbn; try break_match); cbn;
    rewrite <- ?app_assoc; cbn [app]; rewrite ?Hs, ?Hd;
    repeat split; try congruence.
  all: unfold with_isDragActive, with_previousUserSelect; cbn;
    rewrite ?Hs; reflexivity.
Qed.

End EndDrag.

(** C10. End-drag always returns normally. Among the host calls it makes,
    [releasePointerCapture(id)] occurs exactly when a drag is active, [id]
    is the owning pointer, the element has a [hasPointerCapture] method
    and that method reports [id] as captured. On a host without
    [hasPointerCapture] an active drag ends with no release call at all:
    the only calls are the removal of the active class and the restore of
    the saved selection mode, the captured ids are untouched, the class is
    gone and the drag is over. *)
Theorem C10_release_guarded_by_hasPointerCapture
    (host : Platform) (options : DragScrollOptions) (w : World) :
  let w' := snd (endDrag host options w) in
  fst (endDrag host options w) = Normal tt
  /\ (exists new,
         calls w' = calls w ++ new
         /\ forall id,
              In (ReleasePointerCapture id) new <->
              (isDragActive (vars w) = true
               /\ pointerIdentifier (vars w) = Some id
               /\ exists f, hasPointerCapture host = Some f
                            /\ f id (captured w) = true))
  /\ (hasPointerCapture host = None ->
      isDragActive (vars w) = true ->
      calls w'
      = calls w
        ++ ClassListRemove (activeClass options)
           :: match previousUserSelect (vars w) with
              | Some s => [SetUserSelect s]
              | None => []
              end
      /\ captured w' = captured w
      /\ hasToken (activeClass options) (classList w') = false
      /\ (forall s, previousUserSelect (vars w) = Some s -> userSelect w' = s)
      /\ previousUserSelect (vars w') = None
      /\ isDragActive (vars w') = false).
Proof.
  cbn zeta.
  destruct (isDragActive (vars w)) eqn:Hd.
  2:{ rewrite endDrag_idle by exact Hd. cbn [fst snd].
      split; [reflexivity|]. split.
      - exists []. split; [symmetry; apply app_nil_r|].
        intros id. split; [intros []|intros [H _]; discriminate].
      - intros _ H. discriminate. }
  pose proof (endDrag_active host options w Hd) as Ha. cbn zeta in Ha.
  destruct Ha as (Hn & Hv & Hu & Hcl & Hcap & Hcalls & _).
  split; [exact Hn|]. split.
  - eexists. split; [exact Hcalls|].
    intros id. unfold endDragCalls, reportsCapture.
    split.
    + intros Hin. apply in_app_or in Hin. destruct Hin as [Hin|Hin].
      * destruct (pointerIdentifier (vars w)) as [p|]; [|destruct Hin].
        destruct (hasPointerCapture host) as [f|]; [|destruct Hin].
        destruct (f p (captured w)) eqn:Hf; [|destruct Hin].
        destruct Hin as [Hin|[]]. injection Hin as <-.
        split; [reflexivity|]. split; [reflexivity|].
        exists f. auto.
      * exfalso. destruct Hin as [Hin|Hin]; [discriminate|].
        destruct (previousUserSelect (vars w)); cbn in Hin;
          [destruct Hin as [Hin|[]]; discriminate | destruct Hin].
    + intros (_ & Hp & f & Hf & Hrep).
      rewrite Hp, Hf, Hrep. apply in_or_app. left. now left.
  - intros Hno _.
    rewrite Hcalls, Hcap, Hcl, Hv, Hu.
    unfold endDragCalls, afterRelease, reportsCapture. rewrite Hno.
    repeat split.
    + destruct (pointerIdentifier (vars w)); reflexivity.
    + destruct (pointerIdentifier (vars w)); reflexivity.
    + apply hasToken_removed.
    + intros s Hs. now rewrite Hs.
Qed.

Lemma C10_witness :
  let w := run legacyPlatform detailsOptions (mounted 50 [] "auto")
             [Pointer Down (mouseEvent 1 100);
              Pointer Move (mouseEvent 1 90)] in
  let w' := snd (endDrag legacyPlatform detailsOptions w) in
  calls w'
  = calls w ++ [ClassListRemove "drag-scroll-active"; SetUserSelect "auto"]
  /\ captured w' = captured w
  /\ hasToken "drag-scroll-active" (classList w') = false
  /\ (forall s, previousUserSelect (vars w) = Some s -> userSelect w' = s)
  /\ previousUserSelect (vars w') = None
  /\ isDragActive (vars w') = false.
Proof.
  apply (C10_release_guarded_by_hasPointerCapture legacyPlatform
           detailsOptions
           (run legacyPlatform detailsOptions (mounted 50 [] "auto")
              [Pointer Down (mouseEvent 1 100);
               Pointer Move (mouseEvent 1 90)]));
    reflexivity.
Defined.

Lemma bind_normal {A B : Type} (m : M A) (f : A -> M B) (w w1 : World)
    (a : A) :
  m w = (Normal a, w1) -> bind m f w = f a w1.
Proof. intros H. unfold bind. now rewrite H. Qed.

Section Unmounting.

Variable host : Platform.
Variable options : DragScrollOptions.

Lemma endDrag_returns (w : World) :
  fst (endDrag host options w) = Normal tt.
Proof.
  destruct (isDragActive (vars w)) eqn:Hd.
  - apply (endDrag_active host options w Hd).
  - now rewrite endDrag_idle.
Qed.

(** The cleanup is end-drag followed by the five removals. *)
Lemma cleanup_via_endDrag (w : World) :
  let we := snd (endDrag host options w) in
  let w' := snd (cleanup host options w) in
  fst (cleanup host options w) = Normal tt
  /\ vars w' = vars we
  /\ userSelect w' = userSelect we
  /\ classList w' = classList we
  /\ captured w' = captured we
  /\ scrollTop w' = scrollTop we
  /\ timers w' = timers we
  /\ uncaught w' = uncaught we
  /\ listeners w' = withoutPointerListeners (listeners we)
  /\ calls w' = calls we ++ map RemoveEventListener pointerListeners.
Proof.
  pose proof (endDrag_returns w) as Hn. cbn zeta.
  unfold cleanup.
  destruct (endDrag host options w) as [[[]|e] we] eqn:E; cbn in Hn;
    [|discriminate].
  rewrite (bind_normal _ _ _ _ _ E).
  unfold withoutPointerListeners. unfold_js. cbn.
  rewrite <- !app_assoc. cbn [app]. repeat split.
Qed.

End Unmounting.

(** C8. Unmounting while the phase is Dragging runs end-drag before the
    listeners go: the call log gains, in this order, the release of the
    pointer capture (when the host reports the owning pointer as
    captured), the removal of the active class, the restore of the
    selection mode to its value [v] from before the gesture, and then the
    five [removeEventListener] calls. Afterwards the selection mode is [v]
    again, the element no longer carries the active class, no saved mode
    is left, pointer events no longer reach the controller, and nothing
    was thrown. *)
Theorem C8_unmount_while_dragging
    (host : Platform) (options : DragScrollOptions)
    (y : Z) (classes : list string) (v : string) (before : list Input) :
  let w := run host options (mounted y classes v) before in
  phase w = Dragging ->
  let w' := step host options w Unmount in
  exists id,
    activePointerId w = Some id
    /\ calls w'
       = calls w
         ++ endDragCalls host options (Some id) (captured w) (Some v)
         ++ map RemoveEventListener pointerListeners
    /\ captured w' = afterRelease host id (captured w)
    /\ hasToken (activeClass options) (classList w') = false
    /\ userSelect w' = v
    /\ previousUserSelect (vars w') = None
    /\ isDragActive (vars w') = false
    /\ attached w' = false
    /\ (forall k e, step host options w' (Pointer k e) = resetFlags w')
    /\ uncaught w' = [].
Proof.
  intros w Hph w'.
  assert (HI : Inv v w) by (apply Inv_run, Inv_mounted).
  assert (HI' : Inv v w') by (apply Inv_step; exact HI).
  assert (Hd : isDragActive (vars w) = true).
  { unfold phase, phase_of in Hph.
    destruct (isDragActive (vars w)); [reflexivity|].
    destruct (isPointerDown (vars w)); discriminate. }
  pose proof HI as [Hdrag _ Hown Hwire Hunc].
  destruct (Hdrag Hd) as (Hpd & Hprev & _).
  rewrite Hpd in Hown.
  destruct (pointerIdentifier (vars w)) as [id|] eqn:Hid; [|discriminate].
  pose proof (endDrag_active host options w Hd) as He. cbn zeta in He.
  rewrite Hid, Hprev in He.
  destruct He as (_ & Hv & Hu & Hcl & Hcap & Hcalls & _ & Hl & _ & _ & Hun).
  pose proof (cleanup_via_endDrag host options w) as Hc. cbn zeta in Hc.
  destruct Hc as (Hn & Hv' & Hu' & Hcl' & Hcap' & _ & _ & Hun' & Hl' & Hcalls').
  assert (Hw' : w' = snd (cleanup host options w)).
  { subst w'. cbn [step].
    destruct (cleanup host options w) as [[a|e] wc]; cbn in *;
      [reflexivity|discriminate]. }
  assert (Hatt : attached w' = false).
  { rewrite Hw'. unfold attached. rewrite Hl', Hl.
    destruct Hwire as (ks & [Hw|[Hw _]] & _); rewrite Hw.
    - rewrite withoutPointerListeners_attached. apply attached_vetoes.
    - rewrite withoutPointerListeners_vetoes. apply attached_vetoes. }
  exists id. unfold activePointerId.
  split; [exact Hid|].
  split; [rewrite Hw', Hcalls', Hcalls; now rewrite <- app_assoc|].
  split; [rewrite Hw', Hcap', Hcap; reflexivity|].
  split; [rewrite Hw', Hcl', Hcl; apply hasToken_removed|].
  split; [rewrite Hw', Hu', Hu; reflexivity|].
  split; [rewrite Hw', Hv', Hv; reflexivity|].
  split; [rewrite Hw', Hv', Hv; reflexivity|].
  split; [exact Hatt|].
  split.
  - intros k e.
    apply (step_pointer_detached host options v w' k e HI' Hatt).
  - rewrite Hw', Hun', Hun. exact Hunc.
Qed.

Lemma C8_witness :
  let w := run standardPlatform detailsOptions
             (mounted 50 ["panel"] "text")
             [Pointer Down (mouseEvent 1 100);
              Pointer Move (mouseEvent 1 90)] in
  let w' := step standardPlatform detailsOptions w Unmount in
  (captured w = [1] /\ userSelect w = "none"
   /\ classList w = ["panel"; "drag-scroll-active"])
  /\ exists id,
    activePointerId w = Some id
    /\ calls w'
       = calls w
         ++ endDragCalls standardPlatform detailsOptions (Some id)
                         (captured w) (Some "text")
         ++ map RemoveEventListener pointerListeners
    /\ captured w' = afterRelease standardPlatform id (captured w)
    /\ hasToken (activeClass detailsOptions) (classList w') = false
    /\ userSelect w' = "text"
    /\ previousUserSelect (vars w') = None
    /\ isDragActive (vars w') = false
    /\ attached w' = false
    /\ (forall k e, step standardPlatform detailsOptions w' (Pointer k e)
                    = resetFlags w')
    /\ uncaught w' = [].
Proof.
  split; [repeat split|].
  apply (C8_unmount_while_dragging standardPlatform detailsOptions 50
           ["panel"] "text"
           [Pointer Down (mouseEvent 1 100);
            Pointer Move (mouseEvent 1 90)]).
  reflexivity.
Defined.

(* ================================================================= *)
(** ** Ending a gesture and the click veto *)

Section Ending.

Variable host : Platform.
Variable options : DragScrollOptions.

Lemma run_app (w : World) (xs ys : list Input) :
  run host options w (xs ++ ys)
  = run host options (run host options w xs) ys.
Proof. unfold run. apply fold_left_app. Qed.

(** Pointer-up and pointer-cancel differ only in the veto wiring. *)
Lemma finish_vs_cancel (e : PointerEvent) (w : World) :
  let a := snd (finishInteraction host options e w) in
  let b := snd (cancelInteraction host options e w) in
  vars b = vars a
  /\ scrollTop b = scrollTop a
  /\ classList b = classList a
  /\ captured b = captured a
  /\ userSelect b = userSelect a
  /\ uncaught b = uncaught a
  /\ listeners b = listeners w
  /\ timers b = timers w
  /\ nextClosure b = nextClosure w.
Proof.
  unfold_js. repeat (cbn; try break_match); cbn; repeat split.
Qed.

Lemma cancel_active (e : PointerEvent) (w : World) :
  isPointerDown (vars w) = true ->
  pointerIdentifier (vars w) = Some (pointerId e) ->
  let b := snd (cancelInteraction host options e w) in
  isPointerDown (vars b) = false
  /\ isDragActive (vars b) = false
  /\ pointerIdentifier (vars b) = None
  /\ suppressClick (vars b) = false
  /\ (isDragActive (vars w) = true ->
      classList b
      = filter (fun t => negb (String.eqb (activeClass options) t))
               (classList w)).
Proof.
  intros Hp Hi. unfold_js. rewrite Hp, Hi.
  cbn [negb orb notSamePointer]. rewrite Z.eqb_refl. cbn [negb].
  repeat (cbn; try break_match); cbn; tidy; repeat split;
    try discriminate; try congruence; auto.
Qed.

(** Pointer-up of the owning pointer at the end of a drag that moved. *)
Lemma finish_dragging (e : PointerEvent) (w : World) :
  isPointerDown (vars w) = true ->
  pointerIdentifier (vars w) = Some (pointerId e) ->
  isDragActive (vars w) = true ->
  suppressClick (vars w) = true ->
  let w' := snd (finishInteraction host options e w) in
  isPointerDown (vars w') = false
  /\ isDragActive (vars w') = false
  /\ listeners w'
     = (if existsb (registration_eqb (clickVeto (nextClosure w)))
                   (listeners w)
        then listeners w
        else listeners w ++ [clickVeto (nextClosure w)])
  /\ timers w' = timers w ++ [RemovePreventClick (nextClosure w)].
Proof.
  intros Hp Hi Hd Hs. unfold_js. rewrite Hp, Hi, Hd.
  cbn [negb orb notSamePointer]. rewrite Z.eqb_refl. cbn [negb].
  repeat (cbn; try break_match); cbn; tidy; repeat split;
    try discriminate; try congruence; auto.
Qed.

(** A click is cancelled exactly when a veto is still waiting for its
    timer. *)
Lemma click_outcome (v : string) (w : World) :
  Inv v w ->
  let w' := step host options w Click in
  defaultPrevented w' = nonEmpty (timers w)
  /\ propagationStopped w' = nonEmpty (timers w)
  /\ timers w' = timers w.
Proof.
  intros [_ _ _ (ks & Hw & Ht & _) _]. cbn [step].
  rewrite (dispatch_click host options w ks)
    by (destruct Hw as [Hl | [Hl _]]; auto).
  pose proof (click_fold host options ks (resetFlags w)) as Hc.
  cbn zeta in Hc.
  destruct Hc as (_ & _ & _ & _ & _ & _ & H7 & _ & _ & H10 & H11 & _).
  cbn zeta. rewrite H7, H10, H11. cbn. rewrite Ht.
  destruct ks; repeat split.
Qed.

Lemma timers_kept (v : string) (w : World) (i : Input) :
  Inv v w -> i <> TimerFires ->
  nonEmpty (timers w) = true ->
  nonEmpty (timers (step host options w i)) = true.
Proof.
  intros HI Hi Hne. destruct i as [k e| | |]; [| | congruence |].
  - destruct (attached w) eqn:Ha.
    + rewrite (step_pointer_attached host options v w k e HI Ha).
      pose proof (invoke_frame host options (handlerOf k) (PointerEv e)
                    (resetFlags w)) as Hf.
      cbn zeta in Hf.
      destruct Hf as (_ & [(_ & Ht & _) | (_ & _ & _ & _ & Ht & _)]);
        rewrite Ht; cbn.
      * exact Hne.
      * destruct (timers w); [discriminate|reflexivity].
    + rewrite (step_pointer_detached host options v w k e HI Ha).
      exact Hne.
  - destruct (click_outcome v w HI) as (_ & _ & Ht). now rewrite Ht.
  - cbn [step].
    pose proof (cleanup_frame host options w) as Hc. cbn zeta in Hc.
    destruct Hc as (Hn & _ & Ht & _).
    destruct (cleanup host options w) as [[a|e] w']; cbn in *;
      [now rewrite Ht|discriminate].
Qed.

Lemma veto_survives (v : string) (more : list Input) :
  Forall (fun i => i <> TimerFires) more ->
  forall s,
    Inv v s -> nonEmpty (timers s) = true ->
    cancelled (step host options (run host options s more) Click).
Proof.
  induction 1 as [|i more Hi _ IH]; intros s HI Hne; cbn [run fold_left].
  - destruct (click_outcome v s HI) as (Hd & Hp & _).
    unfold cancelled. now rewrite Hd, Hp.
  - apply IH.
    + apply Inv_step. exact HI.
    + apply (timers_kept v); assumption.
Qed.

Lemma clicks_keep_timers (v : string) (n : nat) (s : World) :
  Inv v s ->
  timers (run host options s (repeat Click n)) = timers s.
Proof.
  revert s. induction n as [|n IH]; intros s HI; cbn [repeat run fold_left].
  - reflexivity.
  - fold (run host options (step host options s Click) (repeat Click n)).
    rewrite IH by (apply Inv_step; exact HI).
    apply (click_outcome v s HI).
Qed.

Lemma timer_pops (w : World) (t : Task) (rest : list Task) :
  timers w = t :: rest ->
  timers (step host options w TimerFires) = rest.
Proof. intros H. cbn [step]. rewrite H. destruct t. reflexivity. Qed.

End Ending.

(** C7. On a mounted controller pointer-leave and pointer-cancel do the
    same thing, and what they do to the closure variables, the scroll
    offset, the class list, the captured pointers and the selection mode
    is what pointer-up does; but they leave the listener table and the
    timer queue as they were, so no click veto is installed. For the
    owning pointer the result is Idle with no owner, [suppressClick]
    cleared, no saved mode and the selection mode at its value from before
    the gesture, and after a drag the active class is gone. With no veto
    pending from an earlier drag, the click that follows is delivered. *)
Theorem C7_leave_and_cancel_end_like_pointer_up
    (host : Platform) (options : DragScrollOptions)
    (y : Z) (classes : list string) (v : string) (before : list Input)
    (e : PointerEvent) :
  let w := run host options (mounted y classes v) before in
  attached w = true ->
  let up := step host options w (Pointer Up e) in
  let leave := step host options w (Pointer Leave e) in
  let cancel := step host options w (Pointer Cancel e) in
  leave = cancel
  /\ (vars leave = vars up
      /\ scrollTop leave = scrollTop up
      /\ classList leave = classList up
      /\ captured leave = captured up
      /\ userSelect leave = userSelect up)
  /\ (listeners leave = listeners w /\ timers leave = timers w)
  /\ (activePointerId w = Some (pointerId e) ->
      phase leave = Idle
      /\ activePointerId leave = None
      /\ suppressClick (vars leave) = false
      /\ previousUserSelect (vars leave) = None
      /\ userSelect leave = v
      /\ (phase w = Dragging ->
          hasToken (activeClass options) (classList leave) = false))
  /\ (timers w = [] -> delivered (step host options leave Click)).
Proof.
  intros w Ha up leave cancel.
  assert (HI : Inv v w) by (apply Inv_run, Inv_mounted).
  assert (HIl : Inv v leave) by (apply Inv_step; exact HI).
  assert (Hup : up = snd (finishInteraction host options e (resetFlags w)))
    by apply (step_pointer_attached host options v w Up e HI Ha).
  assert (Hle : leave
                = snd (cancelInteraction host options e (resetFlags w)))
    by apply (step_pointer_attached host options v w Leave e HI Ha).
  assert (Hca : cancel
                = snd (cancelInteraction host options e (resetFlags w)))
    by apply (step_pointer_attached host options v w Cancel e HI Ha).
  pose proof (finish_vs_cancel host options e (resetFlags w)) as Hfc.
  cbn zeta in Hfc. rewrite <- Hup, <- Hle in Hfc.
  destruct Hfc as (H1 & H2 & H3 & H4 & H5 & _ & H7 & H8 & _).
  split; [congruence|].
  split; [auto|].
  split; [auto|].
  split.
  - intros Hown. unfold activePointerId in Hown.
    pose proof HI as [_ _ Ho _ _]. rewrite Hown in Ho. cbn in Ho.
    pose proof (cancel_active host options e (resetFlags w) Ho Hown) as Hc.
    cbn zeta in Hc. rewrite <- Hle in Hc.
    destruct Hc as (Hpd & Hda & Hpi & Hsc & Hcl).
    destruct HIl as [_ Hrest _ _ _]. destruct (Hrest Hda) as (Hprev & Hus).
    unfold phase, phase_of, activePointerId. rewrite Hda, Hpd.
    repeat split; auto.
    intros Hph. rewrite Hcl.
    + apply hasToken_removed.
    + unfold phase, phase_of in Hph. cbn.
      destruct (isDragActive (vars w)); [reflexivity|].
      destruct (isPointerDown (vars w)); discriminate.
  - intros Ht.
    destruct (click_outcome host options v leave HIl) as (Hd & Hp & _).
    unfold delivered. rewrite Hd, Hp, H8. cbn. rewrite Ht. auto.
Qed.

Lemma C7_witness :
  let w := run standardPlatform detailsOptions (mounted 50 [] "auto")
             [Pointer Down (mouseEvent 1 100);
              Pointer Move (mouseEvent 1 90)] in
  let up := step standardPlatform detailsOptions w
              (Pointer Up (mouseEvent 1 90)) in
  let leave := step standardPlatform detailsOptions w
                 (Pointer Leave (mouseEvent 1 90)) in
  let cancel := step standardPlatform detailsOptions w
                  (Pointer Cancel (mouseEvent 1 90)) in
  cancelled (step standardPlatform detailsOptions up Click)
  /\ leave = cancel
  /\ (vars leave = vars up
      /\ scrollTop leave = scrollTop up
      /\ classList leave = classList up
      /\ captured leave = captured up
      /\ userSelect leave = userSelect up)
  /\ (listeners leave = listeners w /\ timers leave = timers w)
  /\ (activePointerId w = Some (pointerId (mouseEvent 1 90)) ->
      phase leave = Idle
      /\ activePointerId leave = None
      /\ suppressClick (vars leave) = false
      /\ previousUserSelect (vars leave) = None
      /\ userSelect leave = "auto"
      /\ (phase w = Dragging ->
          hasToken (activeClass detailsOptions) (classList leave) = false))
  /\ (timers w = [] ->
      delivered (step standardPlatform detailsOptions leave Click)).
Proof.
  split; [split; reflexivity|].
  apply (C7_leave_and_cancel_end_like_pointer_up standardPlatform
           detailsOptions 50 [] "auto"
           [Pointer Down (mouseEvent 1 100);
            Pointer Move (mouseEvent 1 90)] (mouseEvent 1 90)).
  reflexivity.
Defined.

(** C2 as stated fails in both directions. The veto is detached by a
    zero-delay timer, not by the click it cancels: when the timer runs
    before any click arrives, the very next click is delivered; and when
    two clicks arrive before the timer runs, the second one is cancelled
    as well, the veto still being registered after the first. *)
Lemma C2_veto_is_removed_by_timer_not_by_click :
  let go := run standardPlatform detailsOptions (mounted 50 [] "auto") in
  let drag := [Pointer Down (mouseEvent 1 100);
               Pointer Move (mouseEvent 1 90)] in
  let ended := drag ++ [Pointer Up (mouseEvent 1 90)] in
  (phase (go drag) = Dragging /\ suppressClick (vars (go drag)) = true
   /\ phase (go ended) = Idle)
  /\ delivered (go (ended ++ [TimerFires; Click]))
  /\ cancelled (go (ended ++ [Click]))
  /\ existsb (registration_eqb (clickVeto 0))
             (listeners (go (ended ++ [Click]))) = true
  /\ cancelled (go (ended ++ [Click; Click])).
Proof. vm_compute. repeat split. Qed.

(** C2, amended. A pointer-up of the owning pointer that ends a drag with
    [suppressClick] set returns the machine to Idle, registers one
    capturing click veto and queues one zero-delay timer that removes it.
    Until a timer runs, every click dispatched to the container is
    cancelled (default prevented and propagation stopped), whatever else
    happens in between. With no older veto pending, once that timer has
    run, clicks are delivered. *)
Theorem C2_click_veto_lasts_until_its_timer
    (host : Platform) (options : DragScrollOptions)
    (y : Z) (classes : list string) (v : string) (before : list Input)
    (e : PointerEvent) :
  let w := run host options (mounted y classes v) before in
  attached w = true ->
  phase w = Dragging ->
  activePointerId w = Some (pointerId e) ->
  suppressClick (vars w) = true ->
  let w1 := step host options w (Pointer Up e) in
  phase w1 = Idle
  /\ listeners w1 = listeners w ++ [clickVeto (nextClosure w)]
  /\ timers w1 = timers w ++ [RemovePreventClick (nextClosure w)]
  /\ (forall more,
         Forall (fun i => i <> TimerFires) more ->
         cancelled (step host options (run host options w1 more) Click))
  /\ (timers w = [] ->
      forall n m,
        delivered (run host options w1
                       (repeat Click n
                        ++ TimerFires :: repeat Click m ++ [Click]))).
Proof.
  intros w Ha Hph Hown Hsc w1.
  assert (HI : Inv v w) by (apply Inv_run, Inv_mounted).
  assert (HI1 : Inv v w1) by (apply Inv_step; exact HI).
  assert (Hd : isDragActive (vars w) = true).
  { unfold phase, phase_of in Hph.
    destruct (isDragActive (vars w)); [reflexivity|].
    destruct (isPointerDown (vars w)); discriminate. }
  unfold activePointerId in Hown.
  pose proof HI as [_ _ Ho (ks & Hw & Ht & _ & Hfr) _].
  rewrite Hown in Ho. cbn in Ho.
  assert (Hw1 : w1 = snd (finishInteraction host options e (resetFlags w)))
    by apply (step_pointer_attached host options v w Up e HI Ha).
  clearbody w1. clearbody w.
  pose proof (finish_dragging host options e (resetFlags w) Ho Hown Hd Hsc)
    as Hf.
  cbn zeta in Hf. rewrite <- Hw1 in Hf.
  destruct Hf as (Hpd & Hda & Hl & Htm). cbn in Hl, Htm.
  assert (Hfresh : existsb (registration_eqb (clickVeto (nextClosure w)))
                           (listeners w) = false).
  { destruct Hw as [Hw|[Hw _]]; rewrite Hw.
    - rewrite existsb_app, veto_absent by (apply fresh_not_in; exact Hfr).
      reflexivity.
    - apply veto_absent, fresh_not_in. exact Hfr. }
  rewrite Hfresh in Hl.
  split; [unfold phase, phase_of; now rewrite Hda, Hpd|].
  split; [exact Hl|].
  split; [exact Htm|].
  split.
  - intros more Hmore.
    apply (veto_survives host options v more Hmore w1 HI1).
    rewrite Htm. destruct (timers w); reflexivity.
  - intros Hnone n m. rewrite Hnone in Htm. cbn in Htm.
    rewrite run_app.
    assert (HIs1 : Inv v (run host options w1 (repeat Click n)))
      by (apply Inv_run; exact HI1).
    assert (Hts1 : timers (run host options w1 (repeat Click n))
                   = [RemovePreventClick (nextClosure w)]).
    { rewrite (clicks_keep_timers host options v n w1 HI1). exact Htm. }
    generalize dependent (run host options w1 (repeat Click n)).
    intros s1 HIs1 Hts1.
    change (run host options s1 (TimerFires :: repeat Click m ++ [Click]))
      with (run host options (step host options s1 TimerFires)
                (repeat Click m ++ [Click])).
    assert (HIs2 : Inv v (step host options s1 TimerFires))
      by (apply Inv_step; exact HIs1).
    assert (Hts2 : timers (step host options s1 TimerFires) = [])
      by (apply (timer_pops host options s1 _ _ Hts1)).
    generalize dependent (step host options s1 TimerFires).
    intros s2 HIs2 Hts2.
    rewrite run_app.
    assert (HIs3 : Inv v (run host options s2 (repeat Click m)))
      by (apply Inv_run; exact HIs2).
    assert (Hts3 : timers (run host options s2 (repeat Click m)) = []).
    { rewrite <- Hts2. apply (clicks_keep_timers host options v m s2 HIs2). }
    generalize dependent (run host options s2 (repeat Click m)).
    intros s3 HIs3 Hts3.
    change (run host options s3 [Click]) with (step host options s3 Click).
    destruct (click_outcome host options v s3 HIs3) as (Hdp & Hps & _).
    unfold delivered. rewrite Hdp, Hps, Hts3. auto.
Qed.

Lemma C2_witness :
  let w := run standardPlatform detailsOptions (mounted 50 [] "auto")
             [Pointer Down (mouseEvent 1 100);
              Pointer Move (mouseEvent 1 90)] in
  let w1 := step standardPlatform detailsOptions w
              (Pointer Up (mouseEvent 1 90)) in
  phase w1 = Idle
  /\ listeners w1 = listeners w ++ [clickVeto (nextClosure w)]
  /\ timers w1 = timers w ++ [RemovePreventClick (nextClosure w)]
  /\ (forall more,
         Forall (fun i => i <> TimerFires) more ->
         cancelled (step standardPlatform detailsOptions
                         (run standardPlatform detailsOptions w1 more)
                         Click))
  /\ (timers w = [] ->
      forall n m,
        delivered (run standardPlatform detailsOptions w1
                       (repeat Click n
                        ++ TimerFires :: repeat Click m ++ [Click]))).
Proof.
  apply (C2_click_veto_lasts_until_its_timer standardPlatform
           detailsOptions 50 [] "auto"
           [Pointer Down (mouseEvent 1 100);
            Pointer Move (mouseEvent 1 90)] (mouseEvent 1 90));
    reflexivity.
Defined.

(* ================================================================= *)
(** ** Failures of the pointer-capture methods *)

Section Capture.

Variable host : Platform.
Variable options : DragScrollOptions.

Lemma beginDrag_without_capture (id : Z) (w : World) :
  isDragActive (vars w) = false ->
  setPointerCapture host = None
  \/ (exists f err, setPointerCapture host = Some f
                    /\ f id (captured w) = Thrown err) ->
  let r := beginDrag host options id w in
  fst r = Normal tt
  /\ isDragActive (vars (snd r)) = true
  /\ captured (snd r) = captured w
  /\ exists pre, calls (snd r) = pre ++ [SetPointerCapture id].
Proof.
  intros Hd Hfail. unfold_js. rewrite Hd.
  destruct Hfail as [Hno | (f & err & Hf & Herr)].
  - rewrite Hno. repeat (cbn; try break_match); cbn;
      repeat split; eexists; reflexivity.
  - rewrite Hf. repeat (cbn; try break_match); cbn;
      try congruence; repeat split; eexists; reflexivity.
Qed.

Lemma endDrag_without_release (id : Z) (w : World) :
  isDragActive (vars w) = true ->
  pointerIdentifier (vars w) = Some id ->
  reportsCapture host id (captured w) = true ->
  releasePointerCapture host = None
  \/ (exists f err, releasePointerCapture host = Some f
                    /\ f id (captured w) = Thrown err) ->
  let r := endDrag host options w in
  fst r = Normal tt
  /\ isDragActive (vars (snd r)) = false
  /\ captured (snd r) = captured w
  /\ In (ReleasePointerCapture id) (calls (snd r)).
Proof.
  intros Hd Hp Hrep Hfail.
  pose proof (endDrag_active host options w Hd) as He. cbn zeta in He.
  destruct He as (Hn & Hv & _ & _ & Hcap & Hcalls & _).
  cbn zeta. rewrite Hv, Hcap, Hcalls, Hp.
  unfold afterRelease, endDragCalls. rewrite Hrep.
  split; [exact Hn|]. split; [reflexivity|]. split.
  - destruct Hfail as [Hno | (f & err & Hf & Herr)].
    + now rewrite Hno.
    + now rewrite Hf, Herr.
  - apply in_or_app. right. apply in_or_app. left. now left.
Qed.

(** A drag goes on by move events alone: after the move that started it,
    a further move of the owning pointer scrolls again. *)
Lemma drag_follows_moves (v : string) (w : World)
    (down m1 m2 : PointerEvent) :
  Inv v w -> attached w = true ->
  filteredOut options down = false ->
  pointerId m1 = pointerId down ->
  pointerId m2 = pointerId down ->
  Z.abs (deltaY down m1) > 2 ->
  let w3 := run host options w
              [Pointer Down down; Pointer Move m1; Pointer Move m2] in
  phase w3 = Dragging
  /\ scrollTop w3 = scrollTop w - deltaY down m2.
Proof.
  intros HI Ha Hf Hid1 Hid2 Hbig.
  assert (H1 : step host options w (Pointer Down down)
               = armedBy down (resetFlags w))
    by (apply (step_down_arms host options v); assumption).
  cbn zeta. cbn [run fold_left]. rewrite H1.
  assert (HI1 : Inv v (armedBy down (resetFlags w)))
    by (rewrite <- H1; apply Inv_step; exact HI).
  set (w1 := armedBy down (resetFlags w)) in *.
  assert (Ha1 : attached w1 = true) by exact Ha.
  rewrite (step_pointer_attached host options v w1 Move m1 HI1 Ha1).
  cbn [handlerOf invoke].
  pose proof (onPointerMove_drags host options m1 (resetFlags w1)) as Hm.
  cbn zeta in Hm.
  destruct Hm as (Hd & Hp & Hi & _ & Hsy & Hst & _ & _ & Hl & _).
  { reflexivity. }
  { cbn. now rewrite Hid1. }
  { right. exact Hbig. }
  pose proof (Inv_step host options v w1 (Pointer Move m1) HI1) as HI2.
  rewrite (step_pointer_attached host options v w1 Move m1 HI1 Ha1) in HI2.
  cbn [handlerOf invoke] in HI2.
  set (w2 := snd (onPointerMove host options m1 (resetFlags w1))) in *.
  assert (Ha2 : attached w2 = true).
  { unfold attached. rewrite Hl. exact Ha. }
  clearbody w2.
  rewrite (step_pointer_attached host options v w2 Move m2 HI2 Ha2).
  cbn [handlerOf invoke].
  pose proof (onPointerMove_drags host options m2 (resetFlags w2)) as Hm.
  cbn zeta in Hm.
  destruct Hm as (Hd' & _ & _ & _ & _ & _ & Hy' & _).
  { exact Hp. }
  { cbn. rewrite Hi. congruence. }
  { left. exact Hd. }
  unfold phase, phase_of. rewrite Hd', Hy'. cbn.
  cbn in Hsy, Hst. rewrite Hsy, Hst. unfold deltaY. auto.
Qed.

End Capture.

(** C9. Whatever the host's pointer-capture methods do (missing, or
    throwing), every listener of the controller, the cleanup and the timer
    callback return normally, and no run of a mounted controller reports
    an uncaught error. When the capture request fails, begin-drag still
    completes with the drag active, having attempted the request; when the
    release fails, end-drag still completes with the drag over. And the
    gesture works by move events alone: once a move has started the drag,
    the next move of the owning pointer scrolls the container. *)
Theorem C9_no_handler_throws
    (host : Platform) (options : DragScrollOptions) :
  (forall l ev w, fst (invoke host options l ev w) = Normal tt)
  /\ (forall w, fst (cleanup host options w) = Normal tt)
  /\ (forall t w, fst (runTask t w) = Normal tt)
  /\ (forall y classes v inputs,
         uncaught (run host options (mounted y classes v) inputs) = [])
  /\ (forall id w,
         isDragActive (vars w) = false ->
         setPointerCapture host = None
         \/ (exists f err, setPointerCapture host = Some f
                           /\ f id (captured w) = Thrown err) ->
         let r := beginDrag host options id w in
         fst r = Normal tt
         /\ isDragActive (vars (snd r)) = true
         /\ captured (snd r) = captured w
         /\ exists pre, calls (snd r) = pre ++ [SetPointerCapture id])
  /\ (forall id w,
         isDragActive (vars w) = true ->
         pointerIdentifier (vars w) = Some id ->
         reportsCapture host id (captured w) = true ->
         releasePointerCapture host = None
         \/ (exists f err, releasePointerCapture host = Some f
                           /\ f id (captured w) = Thrown err) ->
         let r := endDrag host options w in
         fst r = Normal tt
         /\ isDragActive (vars (snd r)) = false
         /\ captured (snd r) = captured w
         /\ In (ReleasePointerCapture id) (calls (snd r)))
  /\ (forall y classes v before down m1 m2,
         let w := run host options (mounted y classes v) before in
         attached w = true ->
         filteredOut options down = false ->
         pointerId m1 = pointerId down ->
         pointerId m2 = pointerId down ->
         Z.abs (deltaY down m1) > 2 ->
         let w3 := run host options w
                     [Pointer Down down; Pointer Move m1; Pointer Move m2] in
         phase w3 = Dragging
         /\ scrollTop w3 = scrollTop w - deltaY down m2).
Proof.
  split; [apply handlers_return|].
  split; [intros w; apply cleanup_frame|].
  split; [intros [k] w; reflexivity|].
  split; [intros y classes v inputs; apply (Inv_run host options v);
          apply Inv_mounted|].
  split; [apply beginDrag_without_capture|].
  split; [apply endDrag_without_release|].
  intros y classes v before down m1 m2 w Ha Hf H1 H2 Hbig.
  apply (drag_follows_moves host options v); auto.
  apply Inv_run, Inv_mounted.
Qed.

Lemma C9_witness :
  let w := run refusingPlatform detailsOptions (mounted 50 [] "auto") [] in
  let w3 := run refusingPlatform detailsOptions w
              [Pointer Down (mouseEvent 1 100);
               Pointer Move (mouseEvent 1 90);
               Pointer Move (mouseEvent 1 70)] in
  (captured w3 = [] /\ In (SetPointerCapture 1) (calls w3))
  /\ phase w3 = Dragging
  /\ scrollTop w3 = scrollTop w - deltaY (mouseEvent 1 100) (mouseEvent 1 70).
Proof.
  split; [split; [reflexivity|cbn; tauto]|].
  destruct (C9_no_handler_throws refusingPlatform detailsOptions)
    as (_ & _ & _ & _ & _ & _ & H).
  apply (H 50 [] "auto" [] (mouseEvent 1 100) (mouseEvent 1 90)
           (mouseEvent 1 70));
    [reflexivity | reflexivity | reflexivity | reflexivity | cbn; lia].
Defined.

(* ================================================================= *)
(** ** Saving and restoring the selection mode *)

Lemma states_head (host : Platform) (options : DragScrollOptions)
    (w : World) (g : list Input) :
  states host options w g = w :: tl (states host options w g).
Proof. destruct g; reflexivity. Qed.

Lemma last_states (host : Platform) (options : DragScrollOptions)
    (g : list Input) (w d : World) :
  last (states host options w g) d = run host options w g.
Proof.
  revert w. induction g as [|i g IH]; intros w; [reflexivity|].
  cbn [states]. rewrite (states_head host options (step host options w i) g).
  change (last (w :: step host options w i
                  :: tl (states host options (step host options w i) g)) d)
    with (last (step host options w i
                  :: tl (states host options (step host options w i) g)) d).
  rewrite <- states_head. exact (IH (step host options w i)).
Qed.

Lemma captureSteps_cons (a b : World) (rest : list World) :
  captureSteps (a :: b :: rest)
  = if negb (saved a) && saved b then (a, b) :: captureSteps (b :: rest)
    else captureSteps (b :: rest).
Proof. reflexivity. Qed.

Lemma restoreSteps_cons (a b : World) (rest : list World) :
  restoreSteps (a :: b :: rest)
  = if saved a && negb (saved b) then (a, b) :: restoreSteps (b :: rest)
    else restoreSteps (b :: rest).
Proof. reflexivity. Qed.

Lemma last_cons_default {A : Type} (rest : list A) (a b : A) :
  last (b :: rest) a = last rest b.
Proof.
  revert a b. induction rest as [|c rest IH]; intros a b; [reflexivity|].
  change (last (b :: c :: rest) a) with (last (c :: rest) a).
  now rewrite (IH a c), (IH b c).
Qed.

(** Captures and restores alternate, so along any sequence of states
    their numbers differ by what is saved at the two ends. *)
Lemma captures_restores_telescope (rest : list World) (a : World) :
  (List.length (captureSteps (a :: rest)) + b2n (saved a)
   = List.length (restoreSteps (a :: rest)) + b2n (saved (last rest a)))%nat.
Proof.
  revert a. induction rest as [|b rest IH]; intros a.
  - cbn. reflexivity.
  - specialize (IH b). rewrite last_cons_default.
    rewrite captureSteps_cons, restoreSteps_cons.
    revert IH.
    destruct (saved a), (saved b); cbn [negb andb List.length b2n]; lia.
Qed.

Lemma in_removelast_cons {A : Type} (a s : A) (t : list A) :
  In s (removelast t) -> In s (removelast (a :: t)).
Proof.
  destruct t as [|b t]; [intros []|]. intros H.
  change (removelast (a :: b :: t)) with (a :: removelast (b :: t)).
  now right.
Qed.

Lemma existsb_filter_false {A : Type} (p q : A -> bool) (l : list A) :
  existsb p l = false -> existsb p (filter q l) = false.
Proof.
  induction l as [|a l IH]; cbn; [auto|].
  intros H. apply Bool.orb_false_iff in H. destruct H as [Ha Hl].
  destruct (q a); cbn; [rewrite Ha|]; auto.
Qed.

Section SaveRestore.

Variable host : Platform.
Variable options : DragScrollOptions.

Lemma saved_is_dragging (v : string) (w : World) :
  Inv v w -> saved w = isDragActive (vars w).
Proof.
  intros [Hd Hr _ _ _]. unfold saved.
  destruct (isDragActive (vars w)).
  - destruct (Hd eq_refl) as (_ & -> & _). reflexivity.
  - destruct (Hr eq_refl) as (-> & _). reflexivity.
Qed.

Lemma invoke_drag_transitions (l : Listener) (ev : DomEvent) (w : World) :
  let w' := snd (invoke host options l ev w) in
  (isDragActive (vars w) = false -> isDragActive (vars w') = true ->
   isPointerDown (vars w) = true)
  /\ (isDragActive (vars w) = true -> isDragActive (vars w') = false ->
      isPointerDown (vars w') = false).
Proof.
  destruct l, ev; cbn [invoke]; unfold_js;
    repeat (cbn; try break_match); cbn; split; intros;
    tidy; try discriminate; try congruence; auto.
Qed.

Lemma step_detached (v : string) (w : World) (i : Input) :
  Inv v w -> attached w = false ->
  attached (step host options w i) = false
  /\ vars (step host options w i) = vars w.
Proof.
  intros HI Ha. destruct i as [k e| | |].
  - rewrite (step_pointer_detached host options v w k e HI Ha). auto.
  - destruct HI as [_ _ _ (ks & Hw & _) _]. cbn [step].
    rewrite (dispatch_click host options w ks)
      by (destruct Hw as [Hl | [Hl _]]; auto).
    pose proof (click_fold host options ks (resetFlags w)) as Hc.
    cbn zeta in Hc. destruct Hc as (H1 & _ & _ & _ & H5 & _).
    unfold attached. rewrite H1, H5. auto.
  - cbn [step]. destruct (timers w) as [|[k] rest]; [auto|].
    cbn. split; [|reflexivity].
    apply existsb_filter_false. exact Ha.
  - assert (Hd : isDragActive (vars w) = false).
    { destruct HI as [_ _ _ (ks & [Hl|[_ Hd]] & _) _]; [|exact Hd].
      unfold attached in Ha. rewrite Hl in Ha. discriminate. }
    pose proof (cleanup_via_endDrag host options w) as Hc.
    cbn zeta in Hc. rewrite (endDrag_idle host options w Hd) in Hc.
    cbn [snd] in Hc.
    destruct Hc as (Hn & Hv & _ & _ & _ & _ & _ & _ & Hl & _).
    cbn [step].
    destruct (cleanup host options w) as [[a|e] w']; cbn in *;
      [|discriminate].
    split; [|exact Hv].
    unfold attached. rewrite Hl. unfold withoutPointerListeners.
    repeat apply existsb_filter_false. exact Ha.
Qed.

Lemma step_unmount_detaches (v : string) (w : World) :
  Inv v w ->
  attached (step host options w Unmount) = false
  /\ isDragActive (vars (step host options w Unmount)) = false.
Proof.
  intros HI.
  pose proof (cleanup_frame host options w) as Hc. cbn zeta in Hc.
  destruct Hc as (Hn & _ & _ & _ & _ & Hl & Hd).
  cbn [step].
  destruct (cleanup host options w) as [[a|e] w']; cbn in *;
    [|discriminate].
  split; [|exact Hd].
  unfold attached. rewrite Hl.
  destruct HI as [_ _ _ (ks & [Hw|[Hw _]] & _) _]; rewrite Hw.
  - rewrite withoutPointerListeners_attached. apply attached_vetoes.
  - rewrite withoutPointerListeners_vetoes. apply attached_vetoes.
Qed.

Lemma step_keeps_vars (v : string) (w : World) (i : Input) :
  Inv v w -> i = Click \/ i = TimerFires ->
  vars (step host options w i) = vars w.
Proof.
  intros HI [-> | ->].
  - destruct HI as [_ _ _ (ks & Hw & _) _]. cbn [step].
    rewrite (dispatch_click host options w ks)
      by (destruct Hw as [Hl | [Hl _]]; auto).
    apply (click_fold host options ks (resetFlags w)).
  - cbn [step]. destruct (timers w) as [|[k] rest]; reflexivity.
Qed.

(** The mode is captured only by a step from Armed to Dragging. *)
Lemma capture_step (v : string) (w : World) (i : Input) :
  Inv v w ->
  saved w = false -> saved (step host options w i) = true ->
  phase w = Armed /\ phase (step host options w i) = Dragging.
Proof.
  intros HI Hs Hs'.
  pose proof (Inv_step host options v w i HI) as HI'.
  rewrite (saved_is_dragging v w HI) in Hs.
  rewrite (saved_is_dragging v _ HI') in Hs'.
  unfold phase, phase_of. rewrite Hs, Hs'. split; [|reflexivity].
  destruct i as [k e| | |].
  - destruct (attached w) eqn:Ha.
    + rewrite (step_pointer_attached host options v w k e HI Ha) in Hs'.
      destruct (invoke_drag_transitions (handlerOf k) (PointerEv e)
                  (resetFlags w)) as (Hin & _).
      specialize (Hin Hs Hs'). cbn in Hin. now rewrite Hin.
    + destruct (step_detached v w (Pointer k e) HI Ha) as (_ & Hv).
      rewrite Hv in Hs'. congruence.
  - rewrite (step_keeps_vars v w Click HI) in Hs' by auto. congruence.
  - rewrite (step_keeps_vars v w TimerFires HI) in Hs' by auto.
    congruence.
  - destruct (step_unmount_detaches v w HI) as (_ & Hd). congruence.
Qed.

(** The mode is restored only by a step that ends in Idle or unmounts. *)
Lemma restore_step (v : string) (w : World) (i : Input) :
  Inv v w ->
  saved w = true -> saved (step host options w i) = false ->
  atRest (step host options w i).
Proof.
  intros HI Hs Hs'.
  pose proof (Inv_step host options v w i HI) as HI'.
  rewrite (saved_is_dragging v w HI) in Hs.
  rewrite (saved_is_dragging v _ HI') in Hs'.
  unfold atRest, phase, phase_of. rewrite Hs'.
  destruct i as [k e| | |].
  - destruct (attached w) eqn:Ha.
    + rewrite (step_pointer_attached host options v w k e HI Ha) in *.
      destruct (invoke_drag_transitions (handlerOf k) (PointerEv e)
                  (resetFlags w)) as (_ & Hout).
      left. now rewrite (Hout Hs Hs').
    + destruct (step_detached v w (Pointer k e) HI Ha) as (_ & Hv).
      rewrite Hv in Hs'. congruence.
  - rewrite (step_keeps_vars v w Click HI) in Hs' by auto. congruence.
  - rewrite (step_keeps_vars v w TimerFires HI) in Hs' by auto.
    congruence.
  - right. apply (step_unmount_detaches v w HI).
Qed.

Lemma capture_phases (v : string) (g : list Input) :
  forall w,
    Inv v w ->
    Forall (fun p => phase (fst p) = Armed /\ phase (snd p) = Dragging)
           (captureSteps (states host options w g)).
Proof.
  induction g as [|i g IH]; intros w HI; [constructor|].
  cbn [states]. rewrite (states_head host options (step host options w i) g).
  rewrite captureSteps_cons, <- states_head.
  pose proof (IH _ (Inv_step host options v w i HI)) as Hrest.
  destruct (saved w) eqn:Hs; cbn [negb andb]; [exact Hrest|].
  destruct (saved (step host options w i)) eqn:Hs'; [|exact Hrest].
  constructor; [|exact Hrest].
  cbn [fst snd]. apply (capture_step v); assumption.
Qed.

Lemma capture_bound (v : string) (g : list Input) :
  forall w,
    Inv v w ->
    (forall s, In s (removelast (tl (states host options w g))) ->
               phase s <> Idle) ->
    (List.length (captureSteps (states host options w g))
     <= b2n (negb (saved w || negb (attached w))))%nat.
Proof.
  induction g as [|i g IH]; intros w HI Hmid; [cbn; lia|].
  pose proof (Inv_step host options v w i HI) as HI'.
  cbn [states tl] in Hmid.
  assert (Hmid' : forall s,
             In s (removelast (tl (states host options
                                     (step host options w i) g))) ->
             phase s <> Idle).
  { intros s Hin. apply Hmid.
    rewrite (states_head host options (step host options w i) g).
    apply in_removelast_cons. exact Hin. }
  specialize (IH _ HI' Hmid').
  cbn [states]. rewrite (states_head host options (step host options w i) g).
  rewrite captureSteps_cons, <- states_head.
  destruct (saved w) eqn:Hs; cbn [negb andb orb b2n].
  - (* the mode is saved: nothing is captured until it is restored *)
    destruct (saved (step host options w i)) eqn:Hs'.
    + rewrite ?Hs' in IH. cbn in IH. exact IH.
    + destruct g as [|j g]; [cbn; lia|].
      destruct (restore_step v w i HI Hs Hs') as [Hidle|Hoff].
      * exfalso. apply (Hmid (step host options w i)); [|exact Hidle].
        cbn [states]. rewrite (states_head host options (step _ _ _ j) g).
        left. reflexivity.
      * rewrite ?Hs', Hoff in IH. cbn in IH. exact IH.
  - destruct (attached w) eqn:Ha; cbn [negb b2n].
    + destruct (saved (step host options w i)) eqn:Hs'.
      * rewrite ?Hs' in IH. cbn in IH. cbn [List.length]. lia.
      * etransitivity; [exact IH|].
        destruct (negb _); cbn; lia.
    + destruct (step_detached v w i HI Ha) as (Hoff & Hv).
      assert (Hs' : saved (step host options w i) = false)
        by (unfold saved in *; now rewrite Hv).
      rewrite Hs'. rewrite Hoff, Hs' in IH. cbn in IH. exact IH.
Qed.

End SaveRestore.

Lemma atRest_not_dragging (v : string) (w : World) :
  Inv v w -> atRest w -> isDragActive (vars w) = false.
Proof.
  intros [_ _ _ (ks & Hw & _) _] [Hidle|Hoff].
  - unfold phase, phase_of in Hidle.
    destruct (isDragActive (vars w)); [discriminate|reflexivity].
  - destruct Hw as [Hl|[_ Hd]]; [|exact Hd].
    unfold attached in Hoff. rewrite Hl in Hoff. discriminate.
Qed.

(** C3. Whenever a run of a mounted controller is at rest (Idle, or
    unmounted), the global selection mode is the value [v] it had when the
    controller was mounted, and no saved mode is left. Within one gesture,
    that is a stretch of the run that starts in Idle, does not pass
    through Idle and ends at rest, the mode is captured at most once, each
    capture happens on a step from Armed to Dragging, and it is restored
    exactly as often as it is captured. *)
Theorem C3_selection_mode_round_trip
    (host : Platform) (options : DragScrollOptions)
    (y : Z) (classes : list string) (v : string) :
  (forall inputs,
      let w := run host options (mounted y classes v) inputs in
      atRest w ->
      userSelect w = v /\ previousUserSelect (vars w) = None)
  /\ (forall before gesture,
         let w1 := run host options (mounted y classes v) before in
         let ws := states host options w1 gesture in
         phase w1 = Idle ->
         (forall s, In s (removelast (tl ws)) -> phase s <> Idle) ->
         atRest (run host options w1 gesture) ->
         (List.length (captureSteps ws) <= 1)%nat
         /\ List.length (restoreSteps ws) = List.length (captureSteps ws)
         /\ Forall (fun p => phase (fst p) = Armed
                             /\ phase (snd p) = Dragging)
                   (captureSteps ws)
         /\ userSelect w1 = v
         /\ userSelect (run host options w1 gesture) = v).
Proof.
  assert (Hrest : forall w, Inv v w -> atRest w ->
                            userSelect w = v
                            /\ previousUserSelect (vars w) = None).
  { intros w HI Hat.
    pose proof (atRest_not_dragging v w HI Hat) as Hd.
    destruct HI as [_ Hr _ _ _]. destruct (Hr Hd). auto. }
  split.
  - intros inputs w Hat. apply Hrest; [|exact Hat].
    apply Inv_run, Inv_mounted.
  - intros before gesture w1 ws Hidle Hmid Hend.
    assert (HI1 : Inv v w1) by (apply Inv_run, Inv_mounted).
    assert (HI2 : Inv v (run host options w1 gesture))
      by (apply Inv_run; exact HI1).
    assert (Hs1 : saved w1 = false).
    { rewrite (saved_is_dragging v w1 HI1).
      apply (atRest_not_dragging v w1 HI1). now left. }
    assert (Hs2 : saved (run host options w1 gesture) = false).
    { rewrite (saved_is_dragging v _ HI2).
      apply (atRest_not_dragging v _ HI2 Hend). }
    pose proof (capture_bound host options v gesture w1 HI1 Hmid) as Hb.
    pose proof (capture_phases host options v gesture w1 HI1) as Hp.
    pose proof (captures_restores_telescope
                  (tl (states host options w1 gesture)) w1) as Ht.
    rewrite <- states_head in Ht.
    rewrite <- (last_cons_default _ w1 w1), <- states_head in Ht.
    rewrite last_states, Hs1, Hs2 in Ht. cbn [b2n] in Ht.
    fold ws in Hb, Hp, Ht.
    split.
    + etransitivity; [exact Hb|]. destruct (negb _); cbn; lia.
    + split; [lia|]. split; [exact Hp|].
      split; [apply (Hrest w1 HI1); now left|].
      apply (Hrest _ HI2 Hend).
Qed.

Lemma C3_witness :
  let w1 := run standardPlatform detailsOptions (mounted 50 [] "text") [] in
  let gesture := [Pointer Down (mouseEvent 1 100);
                  Pointer Move (mouseEvent 1 90);
                  Pointer Move (mouseEvent 1 80);
                  Pointer Up (mouseEvent 1 80)] in
  let ws := states standardPlatform detailsOptions w1 gesture in
  (List.length (captureSteps ws) <= 1)%nat
  /\ List.length (restoreSteps ws) = List.length (captureSteps ws)
  /\ Forall (fun p => phase (fst p) = Armed /\ phase (snd p) = Dragging)
            (captureSteps ws)
  /\ userSelect w1 = "text"
  /\ userSelect (run standardPlatform detailsOptions w1 gesture) = "text".
Proof.
  apply (proj2 (C3_selection_mode_round_trip standardPlatform
                  detailsOptions 50 [] "text") []
           [Pointer Down (mouseEvent 1 100);
            Pointer Move (mouseEvent 1 90);
            Pointer Move (mouseEvent 1 80);
            Pointer Up (mouseEvent 1 80)]).
  - reflexivity.
  - intros s [<-|[<-|[<-|[]]]]; discriminate.
  - left. reflexivity.
Defined.

(* ================================================================= *)
(** ** Further properties of the controller *)

Lemma hasToken_snoc (c : string) (l : list string) :
  hasToken c (l ++ [c]) = true.
Proof.
  unfold hasToken. rewrite existsb_app. cbn.
  rewrite String.eqb_refl. now rewrite Bool.orb_true_r.
Qed.

Section Stale.

Variable host : Platform.
Variable options : DragScrollOptions.

Lemma finishInteraction_foreign (e : PointerEvent) (w : World) :
  isPointerDown (vars w) = false
  \/ pointerIdentifier (vars w) <> Some (pointerId e) ->
  finishInteraction host options e w = (Normal tt, w).
Proof.
  intros H. unfold finishInteraction, bind, gets.
  destruct (isPointerDown (vars w)); cbn.
  - destruct H as [H|H]; [discriminate|].
    destruct (pointerIdentifier (vars w)) as [q|]; cbn; [|reflexivity].
    destruct (Z.eqb_spec q (pointerId e)) as [->|Hne]; cbn;
      [congruence|reflexivity].
  - reflexivity.
Qed.

Lemma cancelInteraction_foreign (e : PointerEvent) (w : World) :
  isPointerDown (vars w) = false
  \/ pointerIdentifier (vars w) <> Some (pointerId e) ->
  cancelInteraction host options e w = (Normal tt, w).
Proof.
  intros H. unfold cancelInteraction, bind, gets.
  destruct (isPointerDown (vars w)); cbn.
  - destruct H as [H|H]; [discriminate|].
    destruct (pointerIdentifier (vars w)) as [q|]; cbn; [|reflexivity].
    destruct (Z.eqb_spec q (pointerId e)) as [->|Hne]; cbn;
      [congruence|reflexivity].
  - reflexivity.
Qed.

Lemma step_foreign (v : string) (w : World) (k : PointerKind)
    (e : PointerEvent) :
  Inv v w -> k <> Down ->
  pointerIdentifier (vars w) <> Some (pointerId e) ->
  step host options w (Pointer k e) = resetFlags w.
Proof.
  intros HI Hk Hne. destruct (attached w) eqn:Ha.
  - rewrite (step_pointer_attached host options v w k e HI Ha).
    destruct k; cbn [handlerOf invoke]; try congruence.
    + rewrite onPointerMove_foreign; [reflexivity|right; exact Hne].
    + rewrite finishInteraction_foreign; [reflexivity|right; exact Hne].
    + rewrite cancelInteraction_foreign; [reflexivity|right; exact Hne].
    + rewrite cancelInteraction_foreign; [reflexivity|right; exact Hne].
  - apply (step_pointer_detached host options v w k e HI Ha).
Qed.

(** Pointer-up of the owning pointer when no drag took place. *)
Lemma finishInteraction_armed (e : PointerEvent) (w : World) :
  isPointerDown (vars w) = true ->
  pointerIdentifier (vars w) = Some (pointerId e) ->
  isDragActive (vars w) = false ->
  finishInteraction host options e w
  = (Normal tt,
     with_vars (with_suppressClick false
                  (with_pointerIdentifier None
                     (with_isPointerDown false (vars w)))) w).
Proof.
  intros Hp Hi Hd. unfold finishInteraction, bind, gets, when.
  rewrite Hp, Hi, Hd. cbn [negb orb notSamePointer].
  rewrite Z.eqb_refl. reflexivity.
Qed.

Lemma armed_small_run (v : string) (d : PointerEvent)
    (moves : list PointerEvent) :
  Forall (fun m => pointerId m = pointerId d /\ Z.abs (deltaY d m) <= 2)
         moves ->
  forall s,
    Inv v s -> attached s = true ->
    isDragActive (vars s) = false ->
    startY (vars s) = clientY d ->
    run host options s (map (Pointer Move) moves)
    = if nonEmpty moves then resetFlags s else s.
Proof.
  induction 1 as [|m moves [Hid Hsmall] _ IH]; intros s HI Ha Hd Hy;
    [reflexivity|].
  cbn [map run fold_left nonEmpty].
  assert (Hstep : step host options s (Pointer Move m) = resetFlags s).
  { rewrite (step_pointer_attached host options v s Move m HI Ha).
    cbn [handlerOf invoke].
    rewrite onPointerMove_below_threshold; [reflexivity|exact Hd|].
    cbn. rewrite Hy. exact Hsmall. }
  rewrite Hstep.
  change (fold_left (step host options) (map (Pointer Move) moves)
                    (resetFlags s))
    with (run host options (resetFlags s) (map (Pointer Move) moves)).
  rewrite IH; auto.
  - destruct (nonEmpty moves); reflexivity.
  - rewrite <- Hstep. apply Inv_step. exact HI.
Qed.

Lemma invoke_keeps_marker (l : Listener) (ev : DomEvent) (w : World) :
  (isDragActive (vars w) = true ->
   hasToken (activeClass options) (classList w) = true) ->
  isDragActive (vars (snd (invoke host options l ev w))) = true ->
  hasToken (activeClass options)
           (classList (snd (invoke host options l ev w))) = true.
Proof.
  unfold hasToken.
  destruct l, ev; cbn [invoke]; unfold_js;
    repeat (cbn; try break_match); cbn; intros; tidy;
    try discriminate; try congruence; auto;
    try (apply hasToken_snoc).
Qed.

Lemma marker_step (v : string) (w : World) (i : Input) :
  Inv v w ->
  (isDragActive (vars w) = true ->
   hasToken (activeClass options) (classList w) = true) ->
  isDragActive (vars (step host options w i)) = true ->
  hasToken (activeClass options) (classList (step host options w i))
  = true.
Proof.
  intros HI Hm. destruct i as [k e| | |].
  - destruct (attached w) eqn:Ha.
    + rewrite (step_pointer_attached host options v w k e HI Ha).
      apply invoke_keeps_marker. exact Hm.
    + rewrite (step_pointer_detached host options v w k e HI Ha).
      exact Hm.
  - destruct HI as [_ _ _ (ks & Hw & _) _]. cbn [step].
    rewrite (dispatch_click host options w ks)
      by (destruct Hw as [Hl | [Hl _]]; auto).
    pose proof (click_fold host options ks (resetFlags w)) as Hc.
    cbn zeta in Hc. destruct Hc as (H1 & _ & H3 & _).
    rewrite H1, H3. exact Hm.
  - cbn [step]. destruct (timers w) as [|[k] rest]; exact Hm.
  - destruct (step_unmount_detaches host options v w HI) as (_ & Hd).
    congruence.
Qed.

Lemma marker_run (v : string) (inputs : list Input) :
  forall w,
    Inv v w ->
    (isDragActive (vars w) = true ->
     hasToken (activeClass options) (classList w) = true) ->
    isDragActive (vars (run host options w inputs)) = true ->
    hasToken (activeClass options)
             (classList (run host options w inputs)) = true.
Proof.
  induction inputs as [|i rest IH]; intros w HI Hm; cbn [run fold_left].
  - exact Hm.
  - apply IH.
    + apply Inv_step. exact HI.
    + apply (marker_step v); assumption.
Qed.

(** Moves of the owning pointer during a drag. *)
Lemma drag_moves_keep (v : string) (id : Z) (moves : list PointerEvent) :
  Forall (fun m => pointerId m = id) moves ->
  forall w,
    Inv v w -> attached w = true ->
    isDragActive (vars w) = true ->
    isPointerDown (vars w) = true ->
    pointerIdentifier (vars w) = Some id ->
    let w' := run host options w (map (Pointer Move) moves) in
    Inv v w' /\ attached w' = true
    /\ isDragActive (vars w') = true
    /\ isPointerDown (vars w') = true
    /\ pointerIdentifier (vars w') = Some id
    /\ startY (vars w') = startY (vars w)
    /\ startScrollTop (vars w') = startScrollTop (vars w).
Proof.
  induction 1 as [|m moves Hid _ IH]; intros w HI Ha Hd Hp Hi;
    [cbn; auto 10|].
  cbn [map run fold_left].
  pose proof (Inv_step host options v w (Pointer Move m) HI) as HI'.
  pose proof (step_pointer_attached host options v w Move m HI Ha) as Hs.
  cbn [handlerOf invoke] in Hs.
  pose proof (onPointerMove_drags host options m (resetFlags w)) as Hm.
  cbn zeta in Hm. rewrite <- Hs in Hm.
  remember (step host options w (Pointer Move m)) as w1 eqn:Hw1.
  clear Hw1 Hs.
  destruct Hm as (Hd' & Hp' & Hi' & _ & Hy' & Hst' & _ & _ & Hl' & _).
  { exact Hp. }
  { cbn. now rewrite Hi, Hid. }
  { left. exact Hd. }
  cbn in Hy', Hst', Hl'.
  specialize (IH w1 HI').
  cbn zeta in IH.
  destruct IH as (A1 & A2 & A3 & A4 & A5 & A6 & A7).
  { unfold attached. rewrite Hl'. exact Ha. }
  { exact Hd'. }
  { exact Hp'. }
  { rewrite Hi'. now rewrite Hid. }
  cbn zeta. unfold run in *.
  split; [exact A1|]. split; [exact A2|]. split; [exact A3|].
  split; [exact A4|]. split; [exact A5|]. split; congruence.
Qed.

Lemma step_detached_frame (v : string) (w : World) (i : Input) :
  Inv v w -> attached w = false ->
  let w' := step host options w i in
  attached w' = false
  /\ vars w' = vars w
  /\ scrollTop w' = scrollTop w
  /\ classList w' = classList w
  /\ captured w' = captured w
  /\ userSelect w' = userSelect w.
Proof.
  intros HI Ha.
  destruct (step_detached host options v w i HI Ha) as (Hoff & Hv).
  cbn zeta. split; [exact Hoff|]. split; [exact Hv|].
  destruct i as [k e| | |].
  - rewrite (step_pointer_detached host options v w k e HI Ha).
    repeat split.
  - destruct HI as [_ _ _ (ks & Hw & _) _]. cbn [step].
    rewrite (dispatch_click host options w ks)
      by (destruct Hw as [Hl | [Hl _]]; auto).
    pose proof (click_fold host options ks (resetFlags w)) as Hc.
    cbn zeta in Hc. destruct Hc as (_ & H2 & H3 & H4 & _ & H6 & _).
    rewrite H2, H3, H4, H6. repeat split.
  - cbn [step]. destruct (timers w) as [|[k] rest]; repeat split.
  - assert (Hd : isDragActive (vars w) = false).
    { destruct HI as [_ _ _ (ks & [Hl|[_ Hd]] & _) _]; [|exact Hd].
      unfold attached in Ha. rewrite Hl in Ha. discriminate. }
    pose proof (cleanup_via_endDrag host options w) as Hc.
    cbn zeta in Hc. rewrite (endDrag_idle host options w Hd) in Hc.
    cbn [snd] in Hc.
    destruct Hc as (Hn & _ & Hu & Hcl & Hcap & Hsc & _).
    cbn [step].
    destruct (cleanup host options w) as [[a|e] w']; cbn in *;
      [auto|discriminate].
Qed.

Lemma run_detached_frame (v : string) (inputs : list Input) :
  forall w,
    Inv v w -> attached w = false ->
    let w' := run host options w inputs in
    attached w' = false
    /\ vars w' = vars w
    /\ scrollTop w' = scrollTop w
    /\ classList w' = classList w
    /\ captured w' = captured w
    /\ userSelect w' = userSelect w.
Proof.
  induction inputs as [|i rest IH]; intros w HI Ha; cbn zeta;
    [cbn; auto 10|].
  cbn [run fold_left].
  pose proof (step_detached_frame v w i HI Ha) as Hs. cbn zeta in Hs.
  destruct Hs as (S1 & S2 & S3 & S4 & S5 & S6).
  specialize (IH (step host options w i)
                (Inv_step host options v w i HI) S1).
  cbn zeta in IH. unfold run in IH.
  destruct IH as (I1 & I2 & I3 & I4 & I5 & I6).
  repeat split; congruence.
Qed.

Lemma timers_drain (v : string) (n : nat) :
  forall w,
    Inv v w -> List.length (timers w) = n ->
    let w' := run host options w (repeat TimerFires n) in
    Inv v w' /\ timers w' = [] /\ vars w' = vars w
    /\ attached w' = attached w.
Proof.
  induction n as [|n IH]; intros w HI Hn; cbn zeta.
  - cbn. destruct (timers w); [auto|discriminate].
  - cbn [repeat run fold_left].
    destruct (timers w) as [|t rest] eqn:Ht; [discriminate|].
    injection Hn as Hn.
    pose proof (timer_pops host options w t rest Ht) as Hpop.
    specialize (IH (step host options w TimerFires)
                  (Inv_step host options v w TimerFires HI)).
    rewrite Hpop in IH. specialize (IH Hn). cbn zeta in IH.
    unfold run in IH. destruct IH as (I1 & I2 & I3 & I4).
    split; [exact I1|]. split; [exact I2|].
    split.
    + rewrite I3. apply (step_keeps_vars host options v w TimerFires HI).
      now right.
    + rewrite I4. cbn [step]. rewrite Ht. destruct t as [k]. cbn.
      unfold attached. cbn.
      destruct HI as [_ _ _ (ks & Hw & _) _].
      destruct Hw as [Hl|[Hl _]]; rewrite Hl.
      * rewrite filter_app. reflexivity.
      * rewrite attached_vetoes. apply existsb_filter_false.
        apply attached_vetoes.
Qed.

End Stale.

(** Pointer-move, pointer-up, pointer-leave and pointer-cancel events of
    a pointer that does not own the gesture (so every such event while no
    pointer is down) change nothing. *)
Theorem stale_pointer_events_are_ignored
    (host : Platform) (options : DragScrollOptions)
    (y : Z) (classes : list string) (v : string) (before : list Input)
    (k : PointerKind) (e : PointerEvent) :
  let w := run host options (mounted y classes v) before in
  k <> Down ->
  activePointerId w <> Some (pointerId e) ->
  step host options w (Pointer k e) = resetFlags w.
Proof.
  intros w Hk Hne.
  apply (step_foreign host options v); auto.
  apply Inv_run, Inv_mounted.
Qed.

Lemma stale_pointer_events_witness :
  let w := run standardPlatform detailsOptions (mounted 50 [] "auto")
             [Pointer Down (mouseEvent 1 100);
              Pointer Move (mouseEvent 1 90)] in
  step standardPlatform detailsOptions w (Pointer Up (penEvent 0 2 90))
  = resetFlags w.
Proof.
  apply (stale_pointer_events_are_ignored standardPlatform detailsOptions
           50 [] "auto"
           [Pointer Down (mouseEvent 1 100); Pointer Move (mouseEvent 1 90)]
           Up (penEvent 0 2 90)); discriminate.
Defined.

(** A plain click, that is a pointer-down that passes the filters, moves
    of that pointer within the threshold and its pointer-up, starting from
    Idle with no veto pending: the controller is Idle again, it has made
    no host call at all (so the selection mode, the classes and the scroll
    offset were never written and no click veto was installed), and the
    click that follows is delivered. *)
Theorem plain_click_is_transparent
    (host : Platform) (options : DragScrollOptions)
    (y : Z) (classes : list string) (v : string) (before : list Input)
    (down up : PointerEvent) (moves : list PointerEvent) :
  let w := run host options (mounted y classes v) before in
  attached w = true ->
  phase w = Idle ->
  timers w = [] ->
  filteredOut options down = false ->
  Forall (fun m => pointerId m = pointerId down
                   /\ Z.abs (deltaY down m) <= 2) moves ->
  pointerId up = pointerId down ->
  let w' := run host options w
              (Pointer Down down
               :: map (Pointer Move) moves ++ [Pointer Up up]) in
  phase w' = Idle
  /\ activePointerId w' = None
  /\ calls w' = calls w
  /\ userSelect w' = userSelect w
  /\ scrollTop w' = scrollTop w
  /\ classList w' = classList w
  /\ listeners w' = listeners w
  /\ timers w' = []
  /\ delivered (step host options w' Click).
Proof.
  intros w Ha Hidle Ht Hf Hmoves Hup w'.
  assert (HI : Inv v w) by (apply Inv_run, Inv_mounted).
  assert (HI' : Inv v w') by (apply Inv_run; exact HI).
  assert (Hd : isDragActive (vars w) = false).
  { unfold phase, phase_of in Hidle.
    destruct (isDragActive (vars w)); [discriminate|reflexivity]. }
  assert (H1 : step host options w (Pointer Down down)
               = armedBy down (resetFlags w))
    by (apply (step_down_arms host options v); assumption).
  assert (HI1 : Inv v (armedBy down (resetFlags w)))
    by (rewrite <- H1; apply Inv_step; exact HI).
  assert (Hw' : w' = with_vars
                       (with_suppressClick false
                          (with_pointerIdentifier None
                             (with_isPointerDown false
                                (vars (armedBy down (resetFlags w))))))
                       (resetFlags (armedBy down (resetFlags w)))).
  { subst w'. cbn [run fold_left]. rewrite H1.
    change (fold_left (step host options)
              (map (Pointer Move) moves ++ [Pointer Up up])
              (armedBy down (resetFlags w)))
      with (run host options (armedBy down (resetFlags w))
                (map (Pointer Move) moves ++ [Pointer Up up])).
    rewrite run_app.
    rewrite (armed_small_run host options v down moves Hmoves
               (armedBy down (resetFlags w)) HI1 Ha Hd eq_refl).
    assert (HIs : Inv v (if nonEmpty moves
                         then resetFlags (armedBy down (resetFlags w))
                         else armedBy down (resetFlags w))).
    { rewrite <- (armed_small_run host options v down moves Hmoves
                    (armedBy down (resetFlags w)) HI1 Ha Hd eq_refl).
      apply Inv_run. exact HI1. }
    change (run host options ?s [Pointer Up up])
      with (step host options s (Pointer Up up)).
    rewrite (step_pointer_attached host options v _ Up up HIs)
      by (destruct (nonEmpty moves); exact Ha).
    cbn [handlerOf invoke].
    rewrite finishInteraction_armed.
    - destruct (nonEmpty moves); reflexivity.
    - destruct (nonEmpty moves); reflexivity.
    - destruct (nonEmpty moves); cbn; now rewrite Hup.
    - destruct (nonEmpty moves); exact Hd. }
  clearbody w'. clearbody w.
  destruct (click_outcome host options v w' HI') as (Hdp & Hps & _).
  unfold delivered. rewrite Hdp, Hps.
  rewrite Hw'. unfold phase, phase_of, activePointerId. cbn.
  rewrite Hd, Ht. cbn. repeat split.
Qed.

Lemma plain_click_witness :
  let w := run standardPlatform listOptions (mounted 50 [] "auto") [] in
  let w' := run standardPlatform listOptions w
              (Pointer Down (mouseEvent 1 100)
               :: map (Pointer Move) [mouseEvent 1 101]
                  ++ [Pointer Up (mouseEvent 1 101)]) in
  phase w' = Idle
  /\ activePointerId w' = None
  /\ calls w' = calls w
  /\ userSelect w' = userSelect w
  /\ scrollTop w' = scrollTop w
  /\ classList w' = classList w
  /\ listeners w' = listeners w
  /\ timers w' = []
  /\ delivered (step standardPlatform listOptions w' Click).
Proof.
  apply (plain_click_is_transparent standardPlatform listOptions 50 []
           "auto" [] (mouseEvent 1 100) (mouseEvent 1 101)
           [mouseEvent 1 101]);
    [reflexivity | reflexivity | reflexivity | reflexivity
    | repeat constructor; cbn; lia | reflexivity].
Defined.

(** In every state a mounted controller can reach: some pointer owns the
    gesture exactly when the phase is not Idle; a selection mode is saved
    exactly when the phase is Dragging; and an active drag always has its
    pointer down. *)
Theorem owner_and_saved_mode_follow_the_phase
    (host : Platform) (options : DragScrollOptions)
    (y : Z) (classes : list string) (v : string) (inputs : list Input) :
  let w := run host options (mounted y classes v) inputs in
  (activePointerId w = None <-> phase w = Idle)
  /\ (previousUserSelect (vars w) <> None <-> phase w = Dragging)
  /\ (isDragActive (vars w) = true -> isPointerDown (vars w) = true).
Proof.
  intros w.
  assert (HI : Inv v w) by (apply Inv_run, Inv_mounted).
  clearbody w. destruct HI as [Hd Hr Ho _ _].
  unfold activePointerId, phase, phase_of.
  destruct (isDragActive (vars w)) eqn:Hda.
  - destruct (Hd eq_refl) as (Hpd & Hprev & _).
    rewrite Hpd in Ho. rewrite Hprev.
    destruct (pointerIdentifier (vars w)); [|discriminate].
    repeat split; intros; try discriminate; auto.
  - destruct (Hr eq_refl) as (Hprev & _). rewrite Hprev.
    destruct (pointerIdentifier (vars w)), (isPointerDown (vars w));
      cbn in Ho; try discriminate;
      repeat split; intros; try discriminate; try congruence; auto.
Qed.

(** While the phase is Dragging the global selection mode is "none", the
    container carries the active class, and the saved mode is the value
    from before the gesture. *)
Theorem dragging_disables_selection_and_marks_container
    (host : Platform) (options : DragScrollOptions)
    (y : Z) (classes : list string) (v : string) (inputs : list Input) :
  let w := run host options (mounted y classes v) inputs in
  phase w = Dragging ->
  userSelect w = "none"
  /\ hasToken (activeClass options) (classList w) = true
  /\ previousUserSelect (vars w) = Some v.
Proof.
  intros w Hph.
  assert (HI : Inv v w) by (apply Inv_run, Inv_mounted).
  assert (Hd : isDragActive (vars w) = true).
  { unfold phase, phase_of in Hph.
    destruct (isDragActive (vars w)); [reflexivity|].
    destruct (isPointerDown (vars w)); discriminate. }
  assert (Hm : hasToken (activeClass options) (classList w) = true).
  { apply (marker_run host options v inputs (mounted y classes v)).
    - apply Inv_mounted.
    - discriminate.
    - exact Hd. }
  destruct HI as [Hdrag _ _ _ _]. destruct (Hdrag Hd) as (_ & Hp & Hu).
  auto.
Qed.

Lemma dragging_disables_selection_witness :
  let w := run legacyPlatform detailsOptions (mounted 50 ["panel"] "text")
             [Pointer Down (mouseEvent 1 100);
              Pointer Move (mouseEvent 1 90)] in
  userSelect w = "none"
  /\ hasToken (activeClass detailsOptions) (classList w) = true
  /\ previousUserSelect (vars w) = Some "text".
Proof.
  apply (dragging_disables_selection_and_marks_container legacyPlatform
           detailsOptions 50 ["panel"] "text"
           [Pointer Down (mouseEvent 1 100);
            Pointer Move (mouseEvent 1 90)]).
  reflexivity.
Defined.

(** Dragging is absolute, not incremental: during a drag, after any
    sequence of moves of the owning pointer the scroll offset is the start
    offset minus the displacement of the last move from the start
    coordinate, however small that displacement is, and the start values
    are not changed by the moves. *)
Theorem drag_offset_depends_on_last_move_only
    (host : Platform) (options : DragScrollOptions)
    (y : Z) (classes : list string) (v : string) (before : list Input)
    (id : Z) (moves : list PointerEvent) (m : PointerEvent) :
  let w := run host options (mounted y classes v) before in
  attached w = true ->
  phase w = Dragging ->
  activePointerId w = Some id ->
  Forall (fun m' => pointerId m' = id) (moves ++ [m]) ->
  let w' := run host options w (map (Pointer Move) (moves ++ [m])) in
  phase w' = Dragging
  /\ scrollTop w' = startScrollTop (vars w) - (clientY m - startY (vars w))
  /\ startY (vars w') = startY (vars w)
  /\ startScrollTop (vars w') = startScrollTop (vars w).
Proof.
  intros w Ha Hph Hown Hall w'.
  assert (HI : Inv v w) by (apply Inv_run, Inv_mounted).
  assert (Hd : isDragActive (vars w) = true).
  { unfold phase, phase_of in Hph.
    destruct (isDragActive (vars w)); [reflexivity|].
    destruct (isPointerDown (vars w)); discriminate. }
  pose proof HI as [Hdrag _ _ _ _]. destruct (Hdrag Hd) as (Hpd & _).
  apply Forall_app in Hall. destruct Hall as (Hmoves & Hm).
  apply Forall_inv in Hm.
  pose proof (drag_moves_keep host options v id moves Hmoves w HI Ha Hd Hpd
                Hown) as Hk.
  cbn zeta in Hk. destruct Hk as (K1 & K2 & K3 & K4 & K5 & K6 & K7).
  subst w'. rewrite map_app, run_app. cbn [map].
  remember (run host options w (map (Pointer Move) moves)) as s eqn:Hs.
  clear Hs.
  change (run host options s [Pointer Move m])
    with (step host options s (Pointer Move m)).
  rewrite (step_pointer_attached host options v s Move m K1 K2).
  cbn [handlerOf invoke].
  pose proof (onPointerMove_drags host options m (resetFlags s)) as Hmv.
  cbn zeta in Hmv.
  destruct Hmv as (D1 & _ & _ & _ & D5 & D6 & D7 & _).
  { exact K4. }
  { cbn. now rewrite K5, Hm. }
  { left. exact K3. }
  change (vars (resetFlags s)) with (vars s) in D5, D6, D7.
  unfold phase, phase_of. rewrite D1, D5, D6, D7, K6, K7. auto.
Qed.

Lemma drag_offset_witness :
  let w := run standardPlatform detailsOptions (mounted 50 [] "auto")
             [Pointer Down (mouseEvent 1 100);
              Pointer Move (mouseEvent 1 90)] in
  let w' := run standardPlatform detailsOptions w
              (map (Pointer Move)
                   ([mouseEvent 1 40; mouseEvent 1 300]
                    ++ [mouseEvent 1 100])) in
  phase w' = Dragging
  /\ scrollTop w' = startScrollTop (vars w) - (100 - startY (vars w))
  /\ startY (vars w') = startY (vars w)
  /\ startScrollTop (vars w') = startScrollTop (vars w).
Proof.
  apply (drag_offset_depends_on_last_move_only standardPlatform
           detailsOptions 50 [] "auto"
           [Pointer Down (mouseEvent 1 100); Pointer Move (mouseEvent 1 90)]
           1 [mouseEvent 1 40; mouseEvent 1 300] (mouseEvent 1 100));
    [reflexivity | reflexivity | reflexivity | repeat constructor].
Defined.

Section Inert.

Variable host : Platform.
Variable options : DragScrollOptions.

Lemma touch_is_filtered (e : PointerEvent) :
  pointerType e = "touch" -> filteredOut options e = true.
Proof. intros H. unfold filteredOut. now rewrite H. Qed.

Lemma idle_touch_run (v : string)
    (evs : list (PointerKind * PointerEvent)) :
  Forall (fun p => pointerType (snd p) = "touch") evs ->
  forall s,
    Inv v s -> phase s = Idle ->
    run host options s (map (fun p => Pointer (fst p) (snd p)) evs)
    = if nonEmpty evs then resetFlags s else s.
Proof.
  induction 1 as [|[k e] evs Ht _ IH]; intros s HI Hidle; [reflexivity|].
  cbn [map run fold_left nonEmpty fst snd]. cbn [snd] in Ht.
  assert (Hstep : step host options s (Pointer k e) = resetFlags s).
  { destruct k.
    - apply (step_down_filtered host options v s e HI).
      apply touch_is_filtered. exact Ht.
    - apply (step_foreign host options v); auto; try discriminate.
      destruct HI as [_ _ Ho _ _]. unfold phase, phase_of in Hidle.
      destruct (isDragActive (vars s)); [discriminate|].
      destruct (isPointerDown (vars s)); [discriminate|].
      destruct (pointerIdentifier (vars s)); discriminate.
    - apply (step_foreign host options v); auto; try discriminate.
      destruct HI as [_ _ Ho _ _]. unfold phase, phase_of in Hidle.
      destruct (isDragActive (vars s)); [discriminate|].
      destruct (isPointerDown (vars s)); [discriminate|].
      destruct (pointerIdentifier (vars s)); discriminate.
    - apply (step_foreign host options v); auto; try discriminate.
      destruct HI as [_ _ Ho _ _]. unfold phase, phase_of in Hidle.
      destruct (isDragActive (vars s)); [discriminate|].
      destruct (isPointerDown (vars s)); [discriminate|].
      destruct (pointerIdentifier (vars s)); discriminate.
    - apply (step_foreign host options v); auto; try discriminate.
      destruct HI as [_ _ Ho _ _]. unfold phase, phase_of in Hidle.
      destruct (isDragActive (vars s)); [discriminate|].
      destruct (isPointerDown (vars s)); [discriminate|].
      destruct (pointerIdentifier (vars s)); discriminate. }
  rewrite Hstep.
  change (fold_left (step host options)
            (map (fun p => Pointer (fst p) (snd p)) evs) (resetFlags s))
    with (run host options (resetFlags s)
              (map (fun p => Pointer (fst p) (snd p)) evs)).
  rewrite IH.
  - destruct (nonEmpty evs); reflexivity.
  - rewrite <- Hstep. apply Inv_step. exact HI.
  - exact Hidle.
Qed.

Lemma filteredOut_spec (e : PointerEvent) :
  filteredOut options e = true <->
  (pointerType e = "touch"
   \/ (pointerType e = "mouse" /\ button e <> 0)
   \/ exists sel t el,
        ignoreClosestSelector options = Some sel
        /\ sel <> ""
        /\ target e = Some t
        /\ closest t sel = Some el).
Proof.
  unfold filteredOut, inIgnoreZone, ignoreSelector. split.
  - intros H.
    destruct (String.eqb_spec (pointerType e) "touch") as [Ht|Ht];
      [now left|].
    destruct (String.eqb_spec (pointerType e) "mouse") as [Hm|Hm].
    + destruct (Z.eqb_spec (button e) 0) as [Hb|Hb].
      * right. right. cbn in H.
        destruct (ignoreClosestSelector options) as [sel|];
          [|discriminate].
        destruct (String.eqb_spec sel "") as [Hs|Hs]; [discriminate|].
        destruct (target e) as [t|]; [|discriminate].
        destruct (closest t sel) as [el|] eqn:Hc; [|discriminate].
        exists sel, t, el. auto.
      * right. left. auto.
    + right. right. cbn in H.
      destruct (ignoreClosestSelector options) as [sel|];
        [|discriminate].
      destruct (String.eqb_spec sel "") as [Hs|Hs]; [discriminate|].
      destruct (target e) as [t|]; [|discriminate].
      destruct (closest t sel) as [el|] eqn:Hc; [|discriminate].
      exists sel, t, el. auto.
  - intros [H|[[H1 H2]|(sel & t & el & Ho & Hs & Ht & Hc)]].
    + now rewrite H.
    + rewrite H1. apply Z.eqb_neq in H2. rewrite H2. cbn.
      reflexivity.
    + rewrite Ho, Ht, Hc.
      destruct (String.eqb_spec sel "") as [E|E]; [contradiction|].
      now rewrite !Bool.orb_true_r.
Qed.

Lemma pointer_not_veto (type : string) (l : Listener) (ks : list nat) :
  existsb (registration_eqb (onType type l)) (map clickVeto ks) = false.
Proof.
  induction ks as [|k ks IH]; cbn [map existsb]; [reflexivity|].
  rewrite IH. unfold registration_eqb. cbn.
  now rewrite !Bool.andb_false_r.
Qed.

(** Running the effect on an element that carries only click vetoes. *)
Lemma mount_on_vetoes (w : World) (ks : list nat) :
  listeners w = map clickVeto ks ->
  let r := snd (mount w) in
  fst (mount w) = Normal tt
  /\ vars r = initialVars
  /\ listeners r = map clickVeto ks ++ pointerListeners
  /\ userSelect r = userSelect w
  /\ scrollTop r = scrollTop w
  /\ classList r = classList w
  /\ timers r = timers w
  /\ uncaught r = uncaught w.
Proof.
  intros Hl. unfold mount. unfold_js. cbn. rewrite Hl.
  rewrite pointer_not_veto. cbn.
  rewrite existsb_app, pointer_not_veto. cbn.
  rewrite existsb_app, existsb_app, pointer_not_veto. cbn.
  rewrite !existsb_app, pointer_not_veto. cbn.
  rewrite !existsb_app, pointer_not_veto. cbn.
  rewrite <- !app_assoc. cbn. repeat split.
Qed.

Lemma dispatch_pointer_remounted (k : PointerKind) (e : PointerEvent)
    (w : World) (ks : list nat) :
  listeners w = map clickVeto ks ++ pointerListeners ->
  dispatchEvent host options (typeName k) (PointerEv e) w
  = settle (invoke host options (handlerOf k) (PointerEv e) (resetFlags w)).
Proof.
  intros Hl. unfold dispatchEvent.
  change (listeners (with_propagationStopped false
                       (with_defaultPrevented false w)))
    with (listeners w).
  rewrite Hl, filter_app.
  rewrite filter_vetoes_other_type by (destruct k; reflexivity).
  destruct k; reflexivity.
Qed.

End Inert.

(** Touch input is left to native scrolling: from Idle, any sequence of
    touch pointer events (of all five kinds) leaves the closure variables,
    the scroll offset, the classes, the selection mode, the captured
    pointers, the listeners and the call log as they were. *)
Theorem touch_input_is_inert
    (host : Platform) (options : DragScrollOptions)
    (y : Z) (classes : list string) (v : string) (before : list Input)
    (evs : list (PointerKind * PointerEvent)) :
  let w := run host options (mounted y classes v) before in
  phase w = Idle ->
  Forall (fun p => pointerType (snd p) = "touch") evs ->
  let w' := run host options w
              (map (fun p => Pointer (fst p) (snd p)) evs) in
  vars w' = vars w
  /\ scrollTop w' = scrollTop w
  /\ classList w' = classList w
  /\ userSelect w' = userSelect w
  /\ captured w' = captured w
  /\ listeners w' = listeners w
  /\ timers w' = timers w
  /\ calls w' = calls w.
Proof.
  intros w Hidle Hall w'.
  assert (HI : Inv v w) by (apply Inv_run, Inv_mounted).
  subst w'. rewrite (idle_touch_run host options v evs Hall w HI Hidle).
  destruct (nonEmpty evs); repeat split.
Qed.

Lemma touch_input_witness :
  let touch := {| pointerType := "touch"; button := 0; pointerId := 5;
                  clientY := 10; target := None |} in
  let w := run standardPlatform detailsOptions (mounted 50 [] "auto") [] in
  let w' := run standardPlatform detailsOptions w
              (map (fun p => Pointer (fst p) (snd p))
                   [(Down, touch); (Move, touch); (Up, touch)]) in
  vars w' = vars w
  /\ scrollTop w' = scrollTop w
  /\ classList w' = classList w
  /\ userSelect w' = userSelect w
  /\ captured w' = captured w
  /\ listeners w' = listeners w
  /\ timers w' = timers w
  /\ calls w' = calls w.
Proof.
  apply (touch_input_is_inert standardPlatform detailsOptions 50 [] "auto"
           []);
    [reflexivity | repeat constructor].
Defined.

(** Click vetoes do not pile up: in every reachable state the element
    carries as many click listeners as there are pending timers; once
    those timers have run, no click listener is left, the closure
    variables are untouched and a click is delivered. *)
Theorem click_vetoes_are_removed_by_their_timers
    (host : Platform) (options : DragScrollOptions)
    (y : Z) (classes : list string) (v : string) (inputs : list Input) :
  let w := run host options (mounted y classes v) inputs in
  let clicks := filter (fun r => String.eqb (evType r) "click") in
  let w' := run host options w
              (repeat TimerFires (List.length (timers w))) in
  List.length (clicks (listeners w)) = List.length (timers w)
  /\ timers w' = []
  /\ clicks (listeners w') = []
  /\ vars w' = vars w
  /\ delivered (step host options w' Click).
Proof.
  intros w clicks w'.
  assert (HI : Inv v w) by (apply Inv_run, Inv_mounted).
  pose proof (timers_drain host options v (List.length (timers w)) w HI
                eq_refl) as Hd.
  cbn zeta in Hd. fold w' in Hd. destruct Hd as (HI' & Ht' & Hv' & _).
  clearbody w'. clearbody w.
  split.
  - destruct HI as [_ _ _ (ks & Hw & Ht & _) _]. subst clicks.
    rewrite Ht, length_map.
    destruct Hw as [Hl|[Hl _]]; rewrite Hl.
    + rewrite filter_app, filter_vetoes_click. cbn. apply length_map.
    + rewrite filter_vetoes_click. apply length_map.
  - split; [exact Ht'|]. split; [|split; [exact Hv'|]].
    + destruct HI' as [_ _ _ (ks & Hw & Ht & _) _]. subst clicks.
      rewrite Ht' in Ht. destruct ks; [|discriminate].
      destruct Hw as [Hl|[Hl _]]; rewrite Hl; reflexivity.
    + destruct (click_outcome host options v w' HI') as (Hdp & Hps & _).
      unfold delivered. rewrite Hdp, Hps, Ht'. auto.
Qed.

(** After the cleanup of the effect the controller is inert: whatever
    input follows, the closure variables, the scroll offset, the classes
    and the captured pointers stay as the cleanup left them, the selection
    mode is the value from before any gesture, and no pointer listener
    comes back. *)
Theorem unmounted_controller_is_inert
    (host : Platform) (options : DragScrollOptions)
    (y : Z) (classes : list string) (v : string)
    (before more : list Input) :
  let w := run host options (mounted y classes v) before in
  let u := step host options w Unmount in
  let w' := run host options u more in
  attached w' = false
  /\ vars w' = vars u
  /\ scrollTop w' = scrollTop u
  /\ classList w' = classList u
  /\ captured w' = captured u
  /\ userSelect w' = v
  /\ isDragActive (vars w') = false.
Proof.
  intros w u w'.
  assert (HI : Inv v w) by (apply Inv_run, Inv_mounted).
  assert (HIu : Inv v u) by (apply Inv_step; exact HI).
  destruct (step_unmount_detaches host options v w HI) as (Hoff & Hd).
  fold u in Hoff, Hd.
  pose proof (run_detached_frame host options v more u HIu Hoff) as Hf.
  cbn zeta in Hf. fold w' in Hf.
  destruct Hf as (F1 & F2 & F3 & F4 & F5 & F6).
  clearbody w'. clearbody u.
  destruct HIu as [_ Hr _ _ _]. destruct (Hr Hd) as (_ & Hu).
  repeat split; congruence.
Qed.

(** From Idle a pointer-down arms the controller exactly when it passes
    the three filters of the source: the pointer is not touch, a mouse
    pointer uses its primary button, and the target is not inside the
    ignore zone, where a missing or empty selector or a null target means
    no zone. An arming pointer-down records the pointer, its coordinate
    and the current scroll offset, clears [suppressClick] and makes no
    host call. *)
Theorem pointer_down_arms_iff_filters_pass
    (host : Platform) (options : DragScrollOptions)
    (y : Z) (classes : list string) (v : string) (before : list Input)
    (e : PointerEvent) :
  let w := run host options (mounted y classes v) before in
  attached w = true ->
  phase w = Idle ->
  let w' := step host options w (Pointer Down e) in
  (phase w' = Armed <->
   ~ (pointerType e = "touch"
      \/ (pointerType e = "mouse" /\ button e <> 0)
      \/ exists sel t el,
           ignoreClosestSelector options = Some sel
           /\ sel <> ""
           /\ target e = Some t
           /\ closest t sel = Some el))
  /\ (phase w' = Armed ->
      activePointerId w' = Some (pointerId e)
      /\ startY (vars w') = clientY e
      /\ startScrollTop (vars w') = scrollTop w
      /\ suppressClick (vars w') = false
      /\ calls w' = calls w).
Proof.
  intros w Ha Hidle w'.
  assert (HI : Inv v w) by (apply Inv_run, Inv_mounted).
  assert (Hd : isDragActive (vars w) = false).
  { unfold phase, phase_of in Hidle.
    destruct (isDragActive (vars w)); [discriminate|reflexivity]. }
  destruct (filteredOut options e) eqn:Hf.
  - assert (Hw' : w' = resetFlags w)
      by apply (step_down_filtered host options v w e HI Hf).
    assert (Hph : phase w' = Idle) by (rewrite Hw'; exact Hidle).
    clearbody w'. split.
    + split; [intros H; congruence|].
      intros Hn. exfalso. apply Hn. now apply filteredOut_spec.
    + intros H. congruence.
  - assert (Hw' : w' = armedBy e (resetFlags w))
      by apply (step_down_arms host options v w e HI Ha Hf).
    clearbody w'. rewrite Hw'.
    unfold phase, phase_of, activePointerId. cbn. rewrite Hd. split.
    + split; [|reflexivity].
      intros _ Hn. apply filteredOut_spec in Hn. congruence.
    + intros _. repeat split.
Qed.

Lemma pointer_down_arms_witness :
  let e := penEvent 5 3 77 in
  let w := run standardPlatform listOptions (mounted 50 [] "auto") [] in
  let w' := step standardPlatform listOptions w (Pointer Down e) in
  phase w' = Armed
  /\ activePointerId w' = Some 3
  /\ startY (vars w') = 77
  /\ startScrollTop (vars w') = 50.
Proof.
  destruct (pointer_down_arms_iff_filters_pass standardPlatform listOptions
              50 [] "auto" [] (penEvent 5 3 77) eq_refl eq_refl)
    as (_ & H).
  split; [reflexivity|].
  destruct (H eq_refl) as (H1 & H2 & H3 & _).
  auto.
Defined.

(** Running the effect again after its cleanup (as React does when the
    dependencies change) gives a fresh Idle controller, even when the
    cleanup interrupted a drag: the closure variables are the initial
    ones, the selection mode is the value from before any gesture, each of
    the five pointer listeners is registered exactly once, nothing was
    thrown, and a pointer-down that passes the filters arms it. *)
Theorem remount_after_cleanup_starts_fresh
    (host : Platform) (options : DragScrollOptions)
    (y : Z) (classes : list string) (v : string) (before : list Input) :
  let w := run host options (mounted y classes v) before in
  let r := settle (mount (step host options w Unmount)) in
  vars r = initialVars
  /\ phase r = Idle
  /\ userSelect r = v
  /\ filter (fun x => negb (String.eqb (evType x) "click")) (listeners r)
     = pointerListeners
  /\ uncaught r = []
  /\ forall e, filteredOut options e = false ->
               step host options r (Pointer Down e)
               = armedBy e (resetFlags r).
Proof.
  intros w r.
  assert (HI : Inv v w) by (apply Inv_run, Inv_mounted).
  pose proof (Inv_step host options v w Unmount HI) as HIu.
  destruct (step_unmount_detaches host options v w HI) as (Hoff & Hd).
  destruct (detached_shape v _ HIu Hoff) as (ks & Hl & _).
  pose proof (mount_on_vetoes (step host options w Unmount) ks Hl) as Hm.
  cbn zeta in Hm.
  destruct Hm as (Hn & Hv & Hlr & Hus & _ & _ & _ & Hun).
  assert (Hr : r = snd (mount (step host options w Unmount))).
  { subst r. destruct (mount (step host options w Unmount)) as [[a|e] x];
      cbn in *; [reflexivity|discriminate]. }
  clearbody r. rewrite <- Hr in *.
  destruct HIu as [_ Hrest _ _ Hunc]. destruct (Hrest Hd) as (_ & Hsel).
  split; [exact Hv|].
  split; [unfold phase; rewrite Hv; reflexivity|].
  split; [congruence|].
  split.
  { rewrite Hlr, filter_app.
    replace (filter (fun x => negb (String.eqb (evType x) "click"))
                    (map clickVeto ks)) with (@nil Registration);
      [reflexivity|].
    clear. induction ks as [|k ks IH]; [reflexivity|exact IH]. }
  split; [congruence|].
  intros e Hf. cbn [step].
  rewrite (dispatch_pointer_remounted host options Down e r ks Hlr).
  rewrite settle_invoke. cbn [handlerOf invoke].
  now rewrite onPointerDown_arms.
Qed.

(* ================================================================= *)
(** ** Strings of the catalogue *)

Import Catalog.



Lemma prefix_spec (t s : string) :
  String.prefix t s = true <-> exists b, s = (t ++ b)%string.
Proof.
  revert s. induction t as [|x t IH]; intros s; cbn.
  - split; [intros _; now exists s|intros _; destruct s; reflexivity].
  - destruct s as [|y s]; cbn.
    + split; [discriminate|intros (b & H); discriminate].
    + destruct (ascii_dec x y) as [->|Hne].
      * rewrite IH. split; intros (b & H); exists b; congruence.
      * split; [discriminate|intros (b & H); congruence].
Qed.

Lemma includes_eq (s t : string) :
  includes s t
  = if String.prefix t s then true
    else match s with
         | EmptyString => false
         | String _ r => includes r t
         end.
Proof. destruct s; reflexivity. Qed.

Lemma includes_spec (s t : string) :
  includes s t = true <-> exists a b, s = (a ++ t ++ b)%string.
Proof.
  split.
  - induction s as [|c s IH]; rewrite includes_eq;
      destruct (String.prefix t _) eqn:Hp.
    + intros _. apply prefix_spec in Hp. destruct Hp as (b & ->).
      now exists ""%string, b.
    + discriminate.
    + intros _. apply prefix_spec in Hp. destruct Hp as (b & ->).
      now exists ""%string, b.
    + intros H. destruct (IH H) as (a & b & ->).
      now exists (String c a), b.
  - intros (a & b & ->). induction a as [|c a IH]; rewrite includes_eq.
    + cbn. replace (String.prefix t (t ++ b)) with true; [reflexivity|].
      symmetry. apply prefix_spec. now exists b.
    + destruct (String.prefix t _); [reflexivity|]. exact IH.
Qed.




Lemma toLowerCase_app (a b : string) :
  toLowerCase (a ++ b) = (toLowerCase a ++ toLowerCase b)%string.
Proof. induction a as [|x a IH]; cbn; [reflexivity|now rewrite IH]. Qed.

Lemma includes_lower (s t : string) :
  includes s t = true ->
  includes (toLowerCase s) (toLowerCase t) = true.
Proof.
  rewrite !includes_spec. intros (a & b & ->).
  exists (toLowerCase a), (toLowerCase b).
  now rewrite !toLowerCase_app.
Qed.

Lemma trimStart_suffix (s : string) :
  exists a, s = (a ++ trimStart s)%string.
Proof.
  induction s as [|c s (a & IH)]; [now exists ""%string|].
  cbn. destruct (isWhiteSpace c).
  - exists (String c a). cbn. now rewrite <- IH.
  - now exists ""%string.
Qed.

Lemma trimEnd_prefix (s : string) :
  exists b, s = (trimEnd s ++ b)%string.
Proof.
  induction s as [|c s (b & IH)]; [now exists ""%string|].
  cbn. destruct (trimEnd s) as [|d r] eqn:E.
  - cbn in IH. destruct (isWhiteSpace c).
    + exists (String c s). reflexivity.
    + exists b. cbn. now rewrite <- IH.
  - exists b. cbn. cbn in IH. now rewrite <- IH.
Qed.

Lemma trim_inside (s : string) : includes s (trim s) = true.
Proof.
  apply includes_spec.
  destruct (trimStart_suffix s) as (a & Ha).
  destruct (trimEnd_prefix (trimStart s)) as (b & Hb).
  exists a, b. unfold trim. now rewrite <- Hb.
Qed.

Lemma trimStart_blank (s : string) :
  forallChars isWhiteSpace s = true -> trimStart s = ""%string.
Proof.
  induction s as [|c s IH]; cbn; [reflexivity|].
  intros H. apply Bool.andb_true_iff in H. destruct H as [Hc Hs].
  rewrite Hc. auto.
Qed.






(** *** Decimal numerals *)






(* ================================================================= *)
(** ** The catalogue, the search box and the selection *)






Lemma find_first {A : Type} (f : A -> bool) (l : list A) :
  match find f l with
  | Some x => exists a b, l = a ++ x :: b
                          /\ Forall (fun y => f y = false) a
                          /\ f x = true
  | None => Forall (fun y => f y = false) l
  end.
Proof.
  induction l as [|y l IH]; cbn; [constructor|].
  destruct (f y) eqn:Hy.
  - exists [], l. auto.
  - destruct (find f l) as [x|].
    + destruct IH as (a & b & -> & Ha & Hx).
      exists (y :: a), b. auto.
    + constructor; assumption.
Qed.

Lemma fallback_in (filtered : list Star) (star : Star) :
  fallback filtered = Some star -> In star filtered.
Proof.
  unfold fallback.
  destruct (find _ filtered) as [x|] eqn:Hf.
  - intros [= <-]. apply find_some in Hf. tauto.
  - destruct filtered as [|x l]; [discriminate|].
    intros [= <-]. now left.
Qed.

Lemma fallback_none (filtered : list Star) :
  fallback filtered = None <-> filtered = [].
Proof.
  unfold fallback. destruct (find _ filtered) as [x|] eqn:Hf.
  - split; [discriminate|]. intros ->. discriminate.
  - destruct filtered; split; try discriminate; auto.
Qed.



(** The text shown for a star built from a catalogue entry is its
    [description]: the entry's summary when there is one, the generated
    sentence otherwise. It is empty, and then not rendered, exactly when
    the entry has an empty summary. *)
Theorem description_of_a_catalogue_star (r : StarRecord) :
  starDescription (Some (toStar r)) = description (toStar r)
  /\ (r_summary r = None ->
      description (toStar r)
      = (r_name r ++ " is catalog entry " ++ numberToString (r_catalogId r)
         ++ " in the CosmoStart pointing registry.")%string)
  /\ (description (toStar r) = ""%string <-> r_summary r = Some ""%string).
Proof.
  unfold starDescription, toStar. cbn.
  destruct (r_summary r) as [s|].
  - split; [reflexivity|]. split; [discriminate|].
    split; [intros ->; reflexivity|intros [= ->]; reflexivity].
  - split; [reflexivity|]. split; [reflexivity|].
    split; [|discriminate].
    intros H. destruct (r_name r); discriminate.
Qed.

Lemma description_witness :
  let r := {| r_name := "Vega"; r_catalogId := 7; r_image := None;
              r_aliases := None; r_magnitude := None; r_distance := None;
              r_spectralType := None; r_coordinates := None;
              r_summary := None; r_moreInfoUrl := None |} in
  description (toStar r)
  = "Vega is catalog entry 7 in the CosmoStart pointing registry."%string.
Proof.
  apply (description_of_a_catalogue_star
           {| r_name := "Vega"; r_catalogId := 7; r_image := None;
              r_aliases := None; r_magnitude := None; r_distance := None;
              r_spectralType := None; r_coordinates := None;
              r_summary := None; r_moreInfoUrl := None |}).
  reflexivity.
Defined.

(** A query that is empty or consists of white space only shows the
    whole catalogue. *)
Theorem blank_query_shows_every_star (query : string) (stars : list Star) :
  forallChars isWhiteSpace query = true ->
  filteredStars query stars = stars.
Proof.
  intros H. unfold filteredStars, trim.
  now rewrite (trimStart_blank query H).
Qed.


(** The search ignores letter case and surrounding white space: a query
    that equals a star's name up to those finds that star. *)
Theorem searching_a_name_finds_the_star
    (query : string) (stars : list Star) (star : Star) :
  toLowerCase (trim query) = toLowerCase (trim (name star)) ->
  In star stars ->
  In star (filteredStars query stars).
Proof.
  intros Hq Hin. unfold filteredStars.
  destruct (String.eqb (trim query) ""); [exact Hin|].
  apply filter_In. split; [exact Hin|].
  rewrite Hq.
  now rewrite (includes_lower _ _ (trim_inside (name star))).
Qed.


Lemma blank_query_witness :
  filteredStars "   " sampleStars = sampleStars.
Proof. apply blank_query_shows_every_star. reflexivity. Defined.


Lemma searching_a_name_witness :
  let deneb := toStar (bareEntry "Deneb" 7 (Some (photo "   "))) in
  In deneb (filteredStars "  dEnEB " sampleStars).
Proof.
  apply (searching_a_name_finds_the_star "  dEnEB " sampleStars
           (toStar (bareEntry "Deneb" 7 (Some (photo "   "))))).
  - reflexivity.
  - right. left. reflexivity.
Defined.


(** After the selection effect has run, a star is selected exactly when
    the filtered list is not empty, and the selected star is one of the
    listed ones (by id); a selection that is still listed is kept; and
    running the effect again changes nothing. *)
Theorem selection_effect_settles
    (filtered : list Star) (selected : option Star) :
  let selected' := reselect filtered selected in
  (selected' = None <-> filtered = [])
  /\ (forall s, selected' = Some s ->
                exists star, In star filtered /\ id star = id s)
  /\ (forall sel, selected = Some sel ->
                  (exists star, In star filtered /\ id star = id sel) ->
                  selected' = selected)
  /\ reselect filtered selected' = selected'.
Proof.
  assert (Hvis : forall sel,
             existsb (fun star => String.eqb (id star) (id sel)) filtered
             = true <->
             exists star, In star filtered /\ id star = id sel).
  { intros sel. rewrite existsb_exists.
    split; intros (x & Hx & E); exists x; split; auto;
      now apply String.eqb_eq. }
  assert (Hfb : forall s, fallback filtered = Some s ->
                          reselect filtered (Some s) = Some s).
  { intros s Hs. unfold reselect.
    replace (existsb _ filtered) with true; [reflexivity|].
    symmetry. apply Hvis. exists s. split; [|reflexivity].
    now apply fallback_in. }
  cbn zeta. destruct selected as [sel|]; cbn [reselect].
  - destruct (existsb (fun star => String.eqb (id star) (id sel)) filtered)
      eqn:Hv.
    + split.
      { split; [discriminate|]. intros ->. discriminate. }
      split.
      { intros s [= <-]. now apply Hvis. }
      split; [reflexivity|].
      cbn [reselect]. now rewrite Hv.
    + split; [apply fallback_none|].
      split.
      { intros s Hs. exists s. split; [now apply fallback_in|reflexivity]. }
      split.
      { intros sel' [= <-] Hex. apply Hvis in Hex. congruence. }
      destruct (fallback filtered) as [s|] eqn:Hf; [now apply Hfb|].
      cbn [reselect]. exact Hf.
  - split; [apply fallback_none|].
    split.
    { intros s Hs. exists s. split; [now apply fallback_in|reflexivity]. }
    split; [discriminate|].
    destruct (fallback filtered) as [s|] eqn:Hf; [now apply Hfb|].
    cbn [reselect]. exact Hf.
Qed.

Lemma selection_effect_witness :
  let hidden := toStar (bareEntry "Sirius" 1 None) in
  let selected' := reselect sampleStars (Some hidden) in
  exists star, In star sampleStars
               /\ Some star = selected'
               /\ name star = "Vega"%string.
Proof.
  destruct (selection_effect_settles sampleStars
              (Some (toStar (bareEntry "Sirius" 1 None))))
    as (_ & H & _).
  destruct (H (toStar (bareEntry "Vega" 70
                         (Some (photo "https://example.org/vega.jpg"))))
              eq_refl) as (star & Hin & Hid).
  exists (toStar (bareEntry "Vega" 70
                    (Some (photo "https://example.org/vega.jpg")))).
  split; [right; right; left; reflexivity|].
  split; reflexivity.
Defined.

(** Clearing the selection (the Escape key) makes the effect pick the
    fallback: the first listed star with a displayable image, or, when no
    listed star has one, the first listed star. *)
Theorem fallback_prefers_the_first_displayable_star
    (filtered : list Star) :
  reselect filtered None = fallback filtered
  /\ forall star,
       fallback filtered = Some star ->
       (hasDisplayImage (image star) = true
        /\ exists front back,
             filtered = front ++ star :: back
             /\ Forall (fun s => hasDisplayImage (image s) = false) front)
       \/ (Forall (fun s => hasDisplayImage (image s) = false) filtered
           /\ exists rest, filtered = star :: rest).
Proof.
  split; [reflexivity|].
  intros star. unfold fallback.
  pose proof (find_first (fun s => hasDisplayImage (image s)) filtered)
    as Hf.
  destruct (find _ filtered) as [x|].
  - intros [= <-]. left. destruct Hf as (a & b & -> & Ha & Hx).
    split; [exact Hx|]. now exists a, b.
  - destruct filtered as [|x rest]; [discriminate|].
    intros [= <-]. right. split; [exact Hf|]. now exists rest.
Qed.

Lemma fallback_witness :
  let vega := toStar (bareEntry "Vega" 70
                        (Some (photo "https://example.org/vega.jpg"))) in
  hasDisplayImage (image vega) = true
  /\ reselect sampleStars None = Some vega.
Proof.
  split; [reflexivity|].
  rewrite (proj1 (fallback_prefers_the_first_displayable_star sampleStars)).
  reflexivity.
Defined.

(** The image handed to the [img] element always has a non-blank source.
    After a load error the fallback image is shown, and an error while the
    fallback is shown leaves the error flag as it is. *)
Theorem resolved_image_is_always_displayable
    (imageError : bool) (selected : option Star) :
  hasDisplayImage (Some (resolvedImage imageError selected)) = true
  /\ resolvedImage (handleImageError imageError selected) selected
     = FALLBACK_IMAGE
  /\ (imageMeta selected = Fallback ->
      handleImageError imageError selected = imageError)
  /\ (forall m, imageMeta selected = OwnImage m ->
                hasDisplayImage (Some m) = true
                /\ handleImageError imageError selected = true
                /\ exists sel, selected = Some sel /\ image sel = Some m).
Proof.
  assert (Hfb : hasDisplayImage (Some FALLBACK_IMAGE) = true)
    by (vm_compute; reflexivity).
  unfold resolvedImage, handleImageError, imageMeta.
  destruct selected as [sel|]; [destruct (image sel) as [m|] eqn:Hi|].
  - destruct (hasDisplayImage (Some m)) eqn:Hm; cbn [deref].
    + split; [destruct imageError; assumption|].
      split; [reflexivity|]. split; [discriminate|].
      intros m' [= <-]. split; [exact Hm|]. split; [reflexivity|].
      now exists sel.
    + split; [destruct imageError; assumption|].
      split; [destruct imageError; reflexivity|].
      split; [reflexivity|discriminate].
  - cbn [deref].
    split; [destruct imageError; assumption|].
    split; [destruct imageError; reflexivity|].
    split; [reflexivity|discriminate].
  - cbn [deref].
    split; [destruct imageError; assumption|].
    split; [destruct imageError; reflexivity|].
    split; [reflexivity|discriminate].
Qed.

Lemma resolved_image_witness :
  let deneb := toStar (bareEntry "Deneb" 7 (Some (photo "   "))) in
  imageMeta (Some deneb) = Fallback
  /\ handleImageError false (Some deneb) = false.
Proof.
  split; [reflexivity|].
  apply (resolved_image_is_always_displayable false
           (Some (toStar (bareEntry "Deneb" 7 (Some (photo "   ")))))).
  reflexivity.
Defined.

Lemma orElse_nonempty (a b : string) :
  b <> ""%string -> orElse a b <> ""%string.
Proof.
  intros Hb. unfold orElse.
  destruct (String.eqb_spec a ""); assumption.
Qed.

(** Whatever the selected star and its image carry (empty titles, empty
    attributions, an empty name), the alternative text of the image and
    the two caption lines are never empty. *)
Theorem alt_text_and_captions_are_never_empty
    (imageError : bool) (selected : option Star) :
  imageAlt imageError selected <> ""%string
  /\ captionTitle imageError selected <> ""%string
  /\ captionAttribution imageError selected <> ""%string.
Proof.
  split; [|split].
  - unfold imageAlt. destruct selected as [sel|].
    + destruct (name sel); discriminate.
    + apply orElse_nonempty. discriminate.
  - unfold captionTitle. apply orElse_nonempty, orElse_nonempty.
    discriminate.
  - unfold captionAttribution. apply orElse_nonempty.
    destruct selected as [sel|]; discriminate.
Qed.

Lemma owner_and_saved_mode_witness :
  let w := run standardPlatform detailsOptions (mounted 50 [] "auto")
             [Pointer Down (mouseEvent 1 100);
              Pointer Move (mouseEvent 1 90)] in
  phase w = Dragging /\ isPointerDown (vars w) = true.
Proof.
  split; [reflexivity|].
  apply (owner_and_saved_mode_follow_the_phase standardPlatform
           detailsOptions 50 [] "auto"
           [Pointer Down (mouseEvent 1 100);
            Pointer Move (mouseEvent 1 90)]).
  reflexivity.
Defined.

Lemma remount_witness :
  let w := run standardPlatform listOptions (mounted 50 [] "auto")
             [Pointer Down (mouseEvent 1 100);
              Pointer Move (mouseEvent 1 90)] in
  let r := settle (mount (step standardPlatform listOptions w Unmount)) in
  phase w = Dragging
  /\ step standardPlatform listOptions r (Pointer Down (mouseEvent 2 10))
     = armedBy (mouseEvent 2 10) (resetFlags r).
Proof.
  split; [reflexivity|].
  apply (remount_after_cleanup_starts_fresh standardPlatform listOptions
           50 [] "auto"
           [Pointer Down (mouseEvent 1 100);
            Pointer Move (mouseEvent 1 90)]).
  reflexivity.
Defined.
